(** * draft.py: draft-versus-season rank analysis

    A shallow embedding of the computational core of [draft.py]
    ([get_player_analysis], [_get_player_position_season_point_ranks],
    [get_players_by_team], [get_team_differentials] and the
    [YahooPlayerData] JSON helpers) together with the properties the
    specification states about it.

    Modelling conventions.
    - Python [int] is [Z]; Python [str] is [string].
    - [season_points] (a Python [float]) is kept abstract: a type [Points]
      together with the boolean [<] that [sorted] calls on it.  Theorems
      that depend on the order assume that [<] is a strict weak order,
      which is what [<] is on floats other than NaN.
    - A Python [dict] is an association list in insertion order ([dict]);
      [d[k]] on a missing key raises [KeyError] ([getitem]); assignment to
      a present key keeps its place, assignment to a new key appends
      ([dict_set]).
    - A [collections.defaultdict] is a [dict] with its [default_factory];
      [d[k]] on a missing key stores and returns the default
      ([dd_getitem]).
    - [sorted] and [list.sort] are stable sorts that only use [<] on the
      keys; they are modelled by a stable insertion sort, which returns
      what Python returns whenever [<] is a strict weak order on the keys.
      Statements about the order assume that; the others only use that the
      result is a rearrangement of the input.
    - [json.dumps] and [json.loads] are parameters; the JSON text is
      opaque. *)

From Stdlib Require Import String List ZArith Lia Permutation Sorted.
Import ListNotations.
Open Scope string_scope.
Open Scope list_scope.
Open Scope Z_scope.

(** ** Exceptions *)

Inductive exception : Type :=
| KeyError (key : string).

Inductive result (A : Type) : Type :=
| Ok (a : A)
| Raise (e : exception).

Arguments Ok {A} a.
Arguments Raise {A} e.

Definition bind {A B : Type} (r : result A) (k : A -> result B) : result B :=
  match r with
  | Ok a => k a
  | Raise e => Raise e
  end.

Notation "x <- e ;; k" := (bind e (fun x => k))
  (at level 61, e at next level, right associativity).

(** ** Dictionaries *)

Definition dict (V : Type) : Type := list (string * V).

Fixpoint dict_get {V : Type} (k : string) (d : dict V) : option V :=
  match d with
  | [] => None
  | (k', v) :: d' => if String.eqb k k' then Some v else dict_get k d'
  end.

Fixpoint dict_set {V : Type} (k : string) (v : V) (d : dict V) : dict V :=
  match d with
  | [] => [(k, v)]
  | (k', v') :: d' =>
      if String.eqb k k' then (k', v) :: d' else (k', v') :: dict_set k v d'
  end.

Definition keys {V : Type} (d : dict V) : list string := map fst d.

Definition values {V : Type} (d : dict V) : list V := map snd d.

(** [d[k]] *)
Definition getitem {V : Type} (k : string) (d : dict V) : result V :=
  match dict_get k d with
  | Some v => Ok v
  | None => Raise (KeyError k)
  end.

(** ** defaultdict *)

Record defaultdict (V : Type) : Type := mk_defaultdict {
  default_factory : unit -> V;
  items : dict V
}.

Arguments mk_defaultdict {V} _ _.
Arguments default_factory {V} _ _.
Arguments items {V} _.

(** [d[k]] on a defaultdict: a missing key is stored with the default. *)
Definition dd_getitem {V : Type} (k : string) (d : defaultdict V)
  : V * defaultdict V :=
  match dict_get k (items d) with
  | Some v => (v, d)
  | None =>
      let v := default_factory d tt in
      (v, mk_defaultdict (default_factory d) (dict_set k v (items d)))
  end.

(** [d[k] = v] on a defaultdict. *)
Definition dd_setitem {V : Type} (k : string) (v : V) (d : defaultdict V)
  : defaultdict V :=
  mk_defaultdict (default_factory d) (dict_set k v (items d)).

(** ** Stable sorting by a key *)

Section StableSort.
Context {A K : Type}.
Variable lt : K -> K -> bool.
Variable key : A -> K.

(** Ascending: [x], which came first, stays ahead of every element whose
    key is not strictly smaller. *)
Fixpoint insert_asc (x : A) (l : list A) : list A :=
  match l with
  | [] => [x]
  | y :: l' => if lt (key y) (key x) then y :: insert_asc x l' else x :: l
  end.

(** Descending ([reverse=True]): [x] stays ahead of every element whose
    key is not strictly greater, so equal keys keep their input order. *)
Fixpoint insert_desc (x : A) (l : list A) : list A :=
  match l with
  | [] => [x]
  | y :: l' => if lt (key x) (key y) then y :: insert_desc x l' else x :: l
  end.

Definition sorted (reverse : bool) (l : list A) : list A :=
  fold_right (if reverse then insert_desc else insert_asc) [] l.

End StableSort.

(** ** Data classes *)

Module DraftPick.
Record t : Type := mk {
  id : string;
  team_name : string;
  first_name : string;
  last_name : string;
  overall_pick : Z
}.
End DraftPick.

Module YahooPlayerData.
Record t (Points : Type) : Type := mk {
  id : string;
  position : string;
  season_points : Points
}.
Arguments mk {Points} _ _ _.
Arguments id {Points} _.
Arguments position {Points} _.
Arguments season_points {Points} _.
End YahooPlayerData.

Module PlayerAnalysis.
Record t (Points : Type) : Type := mk {
  id : string;
  team_name : string;
  first_name : string;
  last_name : string;
  position : string;
  overall_pick : Z;
  season_points : Points;
  draft_position_rank : Z;
  season_end_position_rank : Z;
  differential : Z
}.
Arguments mk {Points} _ _ _ _ _ _ _ _ _ _.
Arguments id {Points} _.
Arguments team_name {Points} _.
Arguments first_name {Points} _.
Arguments last_name {Points} _.
Arguments position {Points} _.
Arguments overall_pick {Points} _.
Arguments season_points {Points} _.
Arguments draft_position_rank {Points} _.
Arguments season_end_position_rank {Points} _.
Arguments differential {Points} _.
End PlayerAnalysis.

(** ** JSON helpers of [YahooPlayerData]

    [json.dumps] and [json.loads] belong to the Python library, and
    [draft.py] never looks inside the text they exchange: the text is an
    opaque type [Text] and the two functions are parameters.  [json] is the
    part of the JSON data model the record needs. *)

#[warnings="-register-all"]
Inductive json (Points : Type) : Type :=
| JString (s : string)
| JNumber (x : Points)
| JObject (members : list (string * json Points)).

Arguments JString {Points} s.
Arguments JNumber {Points} x.
Arguments JObject {Points} members.

Section Json.
Context {Points Text : Type}.
Variable json_dumps : json Points -> Text.

(** [None] stands for a [JSONDecodeError]. *)
Variable json_loads : Text -> option (json Points).

(** [o.__dict__], what the [default] hook hands to [json.dumps]: the fields
    in declaration order. *)
Definition instance_dict (o : YahooPlayerData.t Points) : json Points :=
  JObject
    [("id", JString (YahooPlayerData.id o));
     ("position", JString (YahooPlayerData.position o));
     ("season_points", JNumber (YahooPlayerData.season_points o))].

Definition to_json (self : YahooPlayerData.t Points) : Text :=
  json_dumps (instance_dict self).

(** [None] when Python raises, or when a field does not have the annotated
    type of the data class. *)
Definition from_json_string (data : Text) : option (YahooPlayerData.t Points) :=
  match json_loads data with
  | Some (JObject dict_data) =>
      match dict_get "id" dict_data, dict_get "position" dict_data,
            dict_get "season_points" dict_data with
      | Some (JString id), Some (JString position), Some (JNumber season_points) =>
          Some (YahooPlayerData.mk id position season_points)
      | _, _, _ => None
      end
  | _ => None
  end.

End Json.

(** ** The stats provider

    [yahoo_query.get_player_stats_for_season] is a remote call of the
    [yfpy] library: a parameter that takes the player id and the state of
    the outside world, and returns the response ([None] when the call
    raises) and the new state.  Of the response only the two attributes
    [_fetch_yahoo_player_data] reads are kept. *)

Module Player.
Record t (Points : Type) : Type := mk {
  primary_position : string;
  player_points_value : Points
}.
Arguments mk {Points} _ _.
Arguments primary_position {Points} _.
Arguments player_points_value {Points} _.
End Player.

Section Fetch.
Context {Points World : Type}.
Variable get_player_stats_for_season :
  string -> World -> option (Player.t Points) * World.

(** The [for player in draft_picks] loop of [_fetch_yahoo_player_data];
    there is no error handling, a call that raises ends the loop. *)
Fixpoint fetch_loop (draft_picks : list DraftPick.t)
    (player_data : dict (YahooPlayerData.t Points)) (world : World)
  : option (dict (YahooPlayerData.t Points)) * World :=
  match draft_picks with
  | [] => (Some player_data, world)
  | player :: rest =>
      match get_player_stats_for_season (DraftPick.id player) world with
      | (Some response, world) =>
          let player_data :=
            dict_set (DraftPick.id player)
              (YahooPlayerData.mk (DraftPick.id player)
                 (Player.primary_position response)
                 (Player.player_points_value response))
              player_data in
          fetch_loop rest player_data world
      | (None, world) => (None, world)
      end
  end.

Definition _fetch_yahoo_player_data (draft_picks : list DraftPick.t)
    (world : World) : option (dict (YahooPlayerData.t Points)) * World :=
  fetch_loop draft_picks [] world.

End Fetch.

(** The cache file is modelled by the JSON document it holds, a mapping
    from player id to the JSON text of the record: [_write_yahoo_data]
    returns the document it hands to [json.dump], [read_yahoo_data] takes
    the document [json.load] returned. *)

Section Cache.
Context {Points Text : Type}.
Variable json_dumps : json Points -> Text.
Variable json_loads : Text -> option (json Points).

(** [{k: v.to_json() for k, v in data.items()}] *)
Definition _write_yahoo_data (data : dict (YahooPlayerData.t Points))
  : dict Text :=
  map (fun kv => (fst kv, to_json json_dumps (snd kv))) data.

(** The [for player_id, player_data_str in data.items()] loop of
    [read_yahoo_data]; [None] when [from_json_string] fails. *)
Fixpoint read_yahoo_data_loop (data : dict Text)
    (player_data : dict (YahooPlayerData.t Points))
  : option (dict (YahooPlayerData.t Points)) :=
  match data with
  | [] => Some player_data
  | (player_id, player_data_str) :: rest =>
      match from_json_string json_loads player_data_str with
      | Some player =>
          read_yahoo_data_loop rest (dict_set player_id player player_data)
      | None => None
      end
  end.

Definition read_yahoo_data (data : dict Text)
  : option (dict (YahooPlayerData.t Points)) :=
  read_yahoo_data_loop data [].

End Cache.

(** ** The analyzer *)

Section Analyzer.
Context {Points : Type}.

(** Python's [<] on [season_points]. *)
Variable points_lt : Points -> Points -> bool.

Let stats : Type := dict (YahooPlayerData.t Points).

(** The [for player in players_sorted] loop of
    [_get_player_position_season_point_ranks]. *)
Fixpoint season_point_ranks_loop (players_sorted : list (YahooPlayerData.t Points))
    (player_position_ranks curr_position_ranks : dict Z) : result (dict Z) :=
  match players_sorted with
  | [] => Ok player_position_ranks
  | player :: rest =>
      r <- getitem (YahooPlayerData.position player) curr_position_ranks ;;
      let player_position_ranks :=
        dict_set (YahooPlayerData.id player) r player_position_ranks in
      c <- getitem (YahooPlayerData.position player) curr_position_ranks ;;
      let curr_position_ranks :=
        dict_set (YahooPlayerData.position player) (c + 1) curr_position_ranks in
      season_point_ranks_loop rest player_position_ranks curr_position_ranks
  end.

Definition _get_player_position_season_point_ranks (player_data : stats)
  : result (dict Z) :=
  let player_position_ranks : dict Z := [] in
  let curr_position_ranks : dict Z :=
    [("QB", 1); ("RB", 1); ("WR", 1); ("TE", 1); ("K", 1); ("DEF", 1)] in
  let players_sorted :=
    sorted points_lt YahooPlayerData.season_points true (values player_data) in
  season_point_ranks_loop players_sorted player_position_ranks curr_position_ranks.

(** The [for pick in draft_picks] loop of [get_player_analysis]. *)
Fixpoint player_analysis_loop (draft_picks : list DraftPick.t)
    (player_data : stats) (player_season_points_ranks : dict Z)
    (curr_draft_player_position_ranks : defaultdict Z)
    (player_analysis_list : list (PlayerAnalysis.t Points))
  : result (list (PlayerAnalysis.t Points)) :=
  match draft_picks with
  | [] => Ok player_analysis_list
  | pick :: rest =>
      pd <- getitem (DraftPick.id pick) player_data ;;
      let position := YahooPlayerData.position pd in
      let '(draft_position_rank, curr) :=
        dd_getitem position curr_draft_player_position_ranks in
      let '(c, curr) := dd_getitem position curr in
      let curr := dd_setitem position (c + 1) curr in
      pd' <- getitem (DraftPick.id pick) player_data ;;
      let season_points := YahooPlayerData.season_points pd' in
      season_points_position_rank <-
        getitem (DraftPick.id pick) player_season_points_ranks ;;
      let player_analysis :=
        PlayerAnalysis.mk (DraftPick.id pick) (DraftPick.team_name pick)
          (DraftPick.first_name pick) (DraftPick.last_name pick) position
          (DraftPick.overall_pick pick) season_points draft_position_rank
          season_points_position_rank
          (draft_position_rank - season_points_position_rank) in
      player_analysis_loop rest player_data player_season_points_ranks curr
        (player_analysis_list ++ [player_analysis])
  end.

Definition get_player_analysis (draft_picks : list DraftPick.t)
    (player_data : stats) : result (list (PlayerAnalysis.t Points)) :=
  let player_analysis_list := [] in
  let curr_draft_player_position_ranks := mk_defaultdict (fun _ => 1) [] in
  player_season_points_ranks <-
    _get_player_position_season_point_ranks player_data ;;
  player_analysis_loop draft_picks player_data player_season_points_ranks
    curr_draft_player_position_ranks player_analysis_list.

(** ** The team aggregator *)

(** The [for team in teams] loop of [get_players_by_team]: every stored
    list is sorted in place. *)
Fixpoint sort_teams_loop (team_keys : list string)
    (teams : defaultdict (list (PlayerAnalysis.t Points)))
  : defaultdict (list (PlayerAnalysis.t Points)) :=
  match team_keys with
  | [] => teams
  | team :: rest =>
      let '(l, teams) := dd_getitem team teams in
      let teams :=
        dd_setitem team (sorted Z.ltb PlayerAnalysis.overall_pick false l) teams in
      sort_teams_loop rest teams
  end.

Definition get_players_by_team (players : list (PlayerAnalysis.t Points))
  : defaultdict (list (PlayerAnalysis.t Points)) :=
  let teams := mk_defaultdict (fun _ => []) [] in
  let teams :=
    fold_left
      (fun teams player =>
         let '(l, teams) := dd_getitem (PlayerAnalysis.team_name player) teams in
         dd_setitem (PlayerAnalysis.team_name player) (l ++ [player]) teams)
      players teams in
  sort_teams_loop (keys (items teams)) teams.

Definition get_team_differentials (players : list (PlayerAnalysis.t Points))
  : defaultdict Z :=
  let team_differentials := mk_defaultdict (fun _ => 0) [] in
  fold_left
    (fun team_differentials player =>
       let '(d, team_differentials) :=
         dd_getitem (PlayerAnalysis.team_name player) team_differentials in
       dd_setitem (PlayerAnalysis.team_name player)
         (d + PlayerAnalysis.differential player) team_differentials)
    players team_differentials.

End Analyzer.

(** ** Vocabulary of the statements *)

(** The six position buckets of [curr_position_ranks]. *)
Definition known_positions : list string :=
  ["QB"; "RB"; "WR"; "TE"; "K"; "DEF"].

(** [start, start+1, ..., start+n-1] *)
Fixpoint zseq (start : Z) (n : nat) : list Z :=
  match n with
  | O => []
  | S n' => start :: zseq (start + 1) n'
  end.

Definition zsum (l : list Z) : Z := fold_right Z.add 0 l.

(** Running per-position counters, as a function: [bump cnt p] is [cnt]
    after [cnt[p] += 1], and [running_ranks cnt ps] lists the counter value
    each element of [ps] sees when the elements are visited in order. *)
Definition bump (cnt : string -> Z) (p : string) : string -> Z :=
  fun q => if String.eqb q p then cnt q + 1 else cnt q.

Fixpoint running_ranks (cnt : string -> Z) (ps : list string) : list Z :=
  match ps with
  | [] => []
  | p :: ps' => cnt p :: running_ranks (bump cnt p) ps'
  end.

(** The counter function a dictionary of counters stands for; [dflt] is
    what a missing key counts as. *)
Definition counter_of (dflt : Z) (curr : dict Z) : string -> Z :=
  fun p => match dict_get p curr with Some c => c | None => dflt end.

(** A run of assignments [d[k] = v]. *)
Definition set_all {V : Type} (kvs : list (string * V)) (d : dict V) : dict V :=
  fold_left (fun d kv => dict_set (fst kv) (snd kv) d) kvs d.

(** The order a descending (ascending) sort by [key] puts its output in:
    no element is followed by one with a strictly greater (smaller) key. *)
Definition not_before_desc {A K : Type} (lt : K -> K -> bool) (key : A -> K)
    (a b : A) : Prop :=
  lt (key a) (key b) = false.

Definition not_before_asc {A K : Type} (lt : K -> K -> bool) (key : A -> K)
    (a b : A) : Prop :=
  lt (key b) (key a) = false.

Definition count_pos (pos : string) (ps : list string) : nat :=
  length (filter (String.eqb pos) ps).

(** One record per player id: no two records of the mapping carry the same
    id.  [_fetch_yahoo_player_data] builds such mappings, storing every
    record under its own id ([player_data[player.id] =
    YahooPlayerData(player.id, ...)]). *)
Definition distinct_ids {Points : Type}
    (player_data : dict (YahooPlayerData.t Points)) : Prop :=
  NoDup (map YahooPlayerData.id (values player_data)).

Definition positions_known {Points : Type}
    (player_data : dict (YahooPlayerData.t Points)) : Prop :=
  Forall (fun pd => In (YahooPlayerData.position pd) known_positions)
    (values player_data).

(** The records of one position. *)
Definition players_at {Points : Type} (pos : string)
    (l : list (YahooPlayerData.t Points)) : list (YahooPlayerData.t Points) :=
  filter (fun pd => String.eqb pos (YahooPlayerData.position pd)) l.

(** [players_sorted], and the ranks
    [_get_player_position_season_point_ranks] hands out along it. *)
Definition season_order {Points : Type} (points_lt : Points -> Points -> bool)
    (player_data : dict (YahooPlayerData.t Points))
  : list (YahooPlayerData.t Points) :=
  sorted points_lt YahooPlayerData.season_points true (values player_data).

Definition season_rank_values {Points : Type}
    (points_lt : Points -> Points -> bool)
    (player_data : dict (YahooPlayerData.t Points)) : list Z :=
  running_ranks (fun _ => 1)
    (map YahooPlayerData.position (season_order points_lt player_data)).

(** What [d[k]] evaluates to on a defaultdict. *)
Definition dd_val {V : Type} (d : defaultdict V) (k : string) : V :=
  match dict_get k (items d) with
  | Some v => v
  | None => default_factory d tt
  end.

(** The position [player_data] records for a pick, if it has the pick. *)
Definition pick_position {Points : Type}
    (player_data : dict (YahooPlayerData.t Points)) (pick : DraftPick.t)
  : option string :=
  option_map YahooPlayerData.position (dict_get (DraftPick.id pick) player_data).

Definition position_or_empty {Points : Type}
    (player_data : dict (YahooPlayerData.t Points)) (pick : DraftPick.t)
  : string :=
  match pick_position player_data pick with
  | Some p => p
  | None => ""
  end.

(** The picks of one position, in draft order. *)
Definition drafted_at {Points : Type} (pos : string)
    (player_data : dict (YahooPlayerData.t Points))
    (draft_picks : list DraftPick.t) : list DraftPick.t :=
  filter
    (fun pick =>
       match pick_position player_data pick with
       | Some p => String.eqb pos p
       | None => false
       end)
    draft_picks.

(** The analyses of one position, in output order. *)
Definition analyzed_at {Points : Type} (pos : string)
    (out : list (PlayerAnalysis.t Points)) : list (PlayerAnalysis.t Points) :=
  filter (fun pa => String.eqb pos (PlayerAnalysis.position pa)) out.

(** The stats mapping covers the draft: under every drafted id it holds a
    record, and the record carries that id. *)
Definition covers {Points : Type}
    (player_data : dict (YahooPlayerData.t Points))
    (draft_picks : list DraftPick.t) : Prop :=
  Forall
    (fun pick =>
       exists pd,
         dict_get (DraftPick.id pick) player_data = Some pd /\
         YahooPlayerData.id pd = DraftPick.id pick)
    draft_picks.

(** [pa] is the analysis of [pick]: the pick's own fields, the position and
    points [player_data] has for its id, and the rank difference. *)
Definition derived_from {Points : Type}
    (player_data : dict (YahooPlayerData.t Points))
    (pick : DraftPick.t) (pa : PlayerAnalysis.t Points) : Prop :=
  exists pd,
    dict_get (DraftPick.id pick) player_data = Some pd /\
    PlayerAnalysis.id pa = DraftPick.id pick /\
    PlayerAnalysis.team_name pa = DraftPick.team_name pick /\
    PlayerAnalysis.first_name pa = DraftPick.first_name pick /\
    PlayerAnalysis.last_name pa = DraftPick.last_name pick /\
    PlayerAnalysis.overall_pick pa = DraftPick.overall_pick pick /\
    PlayerAnalysis.position pa = YahooPlayerData.position pd /\
    PlayerAnalysis.season_points pa = YahooPlayerData.season_points pd /\
    PlayerAnalysis.differential pa
    = PlayerAnalysis.draft_position_rank pa
      - PlayerAnalysis.season_end_position_rank pa.

(** [d[k] = f(d[k])] on a defaultdict: the read stores the default first
    when [k] is missing.  Both aggregation loops have this shape. *)
Definition dd_update {V : Type} (k : string) (f : V -> V) (d : defaultdict V)
  : defaultdict V :=
  let '(v, d) := dd_getitem k d in dd_setitem k (f v) d.

(** The loop bodies of [get_team_differentials] and
    [get_players_by_team]. *)
Definition add_differential {Points : Type} (td : defaultdict Z)
    (p : PlayerAnalysis.t Points) : defaultdict Z :=
  dd_update (PlayerAnalysis.team_name p)
    (fun d => d + PlayerAnalysis.differential p) td.

Definition append_player {Points : Type}
    (teams : defaultdict (list (PlayerAnalysis.t Points)))
    (p : PlayerAnalysis.t Points)
  : defaultdict (list (PlayerAnalysis.t Points)) :=
  dd_update (PlayerAnalysis.team_name p) (fun l => l ++ [p]) teams.

(** The players of one team, in input order. *)
Definition on_team {Points : Type} (team : string)
    (players : list (PlayerAnalysis.t Points)) : list (PlayerAnalysis.t Points) :=
  filter (fun p => String.eqb team (PlayerAnalysis.team_name p)) players.

Definition by_overall_pick {Points : Type} (a b : PlayerAnalysis.t Points)
  : Prop :=
  PlayerAnalysis.overall_pick a <= PlayerAnalysis.overall_pick b.

(** The distinct elements of [l] in the order they first occur, given the
    ones already [seen]: the key order of a dictionary filled by assigning
    the elements of [l] in turn. *)
Fixpoint unseen (seen l : list string) : list string :=
  match l with
  | [] => []
  | x :: l' =>
      if in_dec string_dec x seen then unseen seen l'
      else x :: unseen (seen ++ [x]) l'
  end.

Definition first_occurrences (l : list string) : list string := unseen [] l.

(** [a] occurs in [l] with [b] somewhere after it. *)
Definition before {A : Type} (l : list A) (a b : A) : Prop :=
  exists l1 l2, l = l1 ++ a :: l2 /\ In b l2.

(** The records of the position of [a] with strictly more points than
    [a]. *)
Definition better_players {Points : Type}
    (points_lt : Points -> Points -> bool) (a : YahooPlayerData.t Points)
    (l : list (YahooPlayerData.t Points)) : list (YahooPlayerData.t Points) :=
  filter
    (fun b =>
       String.eqb (YahooPlayerData.position a) (YahooPlayerData.position b)
       && points_lt (YahooPlayerData.season_points a)
            (YahooPlayerData.season_points b))%bool
    l.

(** Every record is stored under its own id. *)
Definition keyed_by_id {Points : Type}
    (player_data : dict (YahooPlayerData.t Points)) : Prop :=
  Forall (fun kv => fst kv = YahooPlayerData.id (snd kv)) player_data.

(** The library reads back the document it wrote for each record. *)
Definition json_round_trips {Points Text : Type}
    (json_dumps : json Points -> Text)
    (json_loads : Text -> option (json Points))
    (data : dict (YahooPlayerData.t Points)) : Prop :=
  Forall
    (fun pd => json_loads (json_dumps (instance_dict pd))
               = Some (instance_dict pd))
    (values data).

(** ** Sample inputs *)

(** The second worked example of the specification: two quarterbacks of
    team A, the later pick outscoring the earlier one. *)
Definition ex_draft : list DraftPick.t :=
  [DraftPick.mk "1" "A" "Ann" "One" 1; DraftPick.mk "2" "A" "Bob" "Two" 2].

Definition ex_stats : dict (YahooPlayerData.t Z) :=
  [("1", YahooPlayerData.mk "1" "QB" 100);
   ("2", YahooPlayerData.mk "2" "QB" 400)].

(** What [get_player_analysis] returns on that example. *)
Definition ex_analysis : list (PlayerAnalysis.t Z) :=
  [PlayerAnalysis.mk "1" "A" "Ann" "One" "QB" 1 100 1 2 (-1);
   PlayerAnalysis.mk "2" "A" "Bob" "Two" "QB" 2 400 2 1 1].

(** Analyses of two teams, team A's out of pick order. *)
Definition ex_players : list (PlayerAnalysis.t Z) :=
  [PlayerAnalysis.mk "3" "A" "Cy" "Three" "RB" 5 80 2 1 1;
   PlayerAnalysis.mk "4" "B" "Di" "Four" "RB" 2 60 1 2 (-1);
   PlayerAnalysis.mk "1" "A" "Ann" "One" "QB" 1 100 1 2 (-1)].

(** Two quarterbacks level on points, and a kicker. *)
Definition tie_stats : dict (YahooPlayerData.t Z) :=
  [("1", YahooPlayerData.mk "1" "QB" 250);
   ("2", YahooPlayerData.mk "2" "QB" 250);
   ("3", YahooPlayerData.mk "3" "K" 90)].

(** Points that may be NaN ([None]), with the [<] of floats: every
    comparison with NaN is false. *)
Definition nan_lt (x y : option Z) : bool :=
  match x, y with
  | Some a, Some b => Z.ltb a b
  | _, _ => false
  end.

(** Three quarterbacks, the second one with NaN points. *)
Definition nan_stats : dict (YahooPlayerData.t (option Z)) :=
  [("1", YahooPlayerData.mk "1" "QB" (Some 1));
   ("2", YahooPlayerData.mk "2" "QB" None);
   ("3", YahooPlayerData.mk "3" "QB" (Some 2))].

(** Two records that carry the same id. *)
Definition twin_stats : dict (YahooPlayerData.t Z) :=
  [("a", YahooPlayerData.mk "x" "QB" 10);
   ("b", YahooPlayerData.mk "x" "QB" 5)].

(** A record stored under an id that is not its own. *)
Definition misfiled_stats : dict (YahooPlayerData.t Z) :=
  [("7", YahooPlayerData.mk "9" "QB" 50)].

(** A drafted linebacker: a position without a bucket. *)
Definition lb_draft : list DraftPick.t :=
  [DraftPick.mk "7" "B" "Lee" "Backer" 1].

Definition lb_stats : dict (YahooPlayerData.t Z) :=
  [("7", YahooPlayerData.mk "7" "LB" 50)].

(** A world that counts the calls made, and a stats service that knows two
    quarterbacks and fails on every other id. *)
Definition ex_service (id : string) (calls : nat)
  : option (Player.t Z) * nat :=
  (if String.eqb id "1" then Some (Player.mk "QB" 100)
   else if String.eqb id "2" then Some (Player.mk "QB" 400)
   else None,
   S calls).

(** * Properties *)

(** Tactics that settle the side conditions on concrete inputs. *)
Ltac solve_in := simpl; auto 12.

Ltac solve_nodup :=
  repeat (apply NoDup_cons; [simpl; intuition discriminate|]); apply NoDup_nil.

Ltac solve_forall tac :=
  repeat (apply Forall_cons; [tac|]); apply Forall_nil.

Ltac solve_covers := solve_forall ltac:(eexists; split; reflexivity).

(** ** Worked examples *)

(** The second example of the specification. *)
Example analysis_of_ex_draft :
  get_player_analysis Z.ltb ex_draft ex_stats = Ok ex_analysis.
Proof. reflexivity. Qed.

Example season_ranks_of_ex_stats :
  _get_player_position_season_point_ranks Z.ltb ex_stats
  = Ok [("2", 1); ("1", 2)].
Proof. reflexivity. Qed.

(** Equal points: the record met first gets the better rank. *)
Example season_ranks_of_tie_stats :
  _get_player_position_season_point_ranks Z.ltb tie_stats
  = Ok [("1", 1); ("2", 2); ("3", 1)].
Proof. reflexivity. Qed.

(** Two records with one id: the later assignment overwrites the earlier,
    which is why the season-end ranks are stated for distinct ids. *)
Example season_ranks_of_twin_stats :
  _get_player_position_season_point_ranks Z.ltb twin_stats = Ok [("x", 2)].
Proof. reflexivity. Qed.

(** A record stored under another id than its own: the pick is found in
    the stats mapping but not among the ranks, which are keyed by the id
    field.  This is why [covers] asks for a record carrying the drafted
    id. *)
Example analysis_of_misfiled_stats :
  In "7" (keys misfiled_stats) /\
  positions_known misfiled_stats /\
  get_player_analysis Z.ltb lb_draft misfiled_stats = Raise (KeyError "7").
Proof.
  split; [solve_in|]. split; [solve_forall solve_in|]. reflexivity.
Qed.

Example teams_of_ex_players :
  items (get_players_by_team ex_players)
  = [("A", [PlayerAnalysis.mk "1" "A" "Ann" "One" "QB" 1 100 1 2 (-1);
            PlayerAnalysis.mk "3" "A" "Cy" "Three" "RB" 5 80 2 1 1]);
     ("B", [PlayerAnalysis.mk "4" "B" "Di" "Four" "RB" 2 60 1 2 (-1)])].
Proof. reflexivity. Qed.

Example differentials_of_ex_players :
  items (get_team_differentials ex_players) = [("A", 0); ("B", -1)].
Proof. reflexivity. Qed.

(** ** Dictionaries *)

Section DictFacts.
Context {V : Type}.
Implicit Types (d : dict V) (k : string) (v : V).

Lemma dict_get_set_eq k v d : dict_get k (dict_set k v d) = Some v.
Proof.
  induction d as [|[k' v'] d IH]; simpl.
  - now rewrite String.eqb_refl.
  - destruct (String.eqb k k') eqn:E; simpl; rewrite E; auto.
Qed.

Lemma dict_get_set_neq k k' v d :
  k <> k' -> dict_get k' (dict_set k v d) = dict_get k' d.
Proof.
  intros Hne. induction d as [|[k0 v0] d IH]; simpl.
  - destruct (String.eqb k' k) eqn:E; auto.
    apply String.eqb_eq in E. congruence.
  - destruct (String.eqb k k0) eqn:E; simpl.
    + apply String.eqb_eq in E. subst k0.
      destruct (String.eqb k' k) eqn:E'; auto.
      apply String.eqb_eq in E'. congruence.
    + now rewrite IH.
Qed.

Lemma dict_get_some_in k v d : dict_get k d = Some v -> In (k, v) d.
Proof.
  induction d as [|[k' v'] d IH]; simpl; [discriminate|].
  destruct (String.eqb k k') eqn:E.
  - apply String.eqb_eq in E. intros [= ->]. subst. now left.
  - intros H. right. auto.
Qed.

Lemma dict_get_none_iff k d : dict_get k d = None <-> ~ In k (keys d).
Proof.
  induction d as [|[k' v'] d IH]; simpl.
  - tauto.
  - destruct (String.eqb k k') eqn:E.
    + apply String.eqb_eq in E. subst. split; [discriminate|]. tauto.
    + apply String.eqb_neq in E. rewrite IH. split.
      * intros H [H'|H']; [congruence | tauto].
      * tauto.
Qed.

Lemma dict_get_in_keys k d : In k (keys d) -> exists v, dict_get k d = Some v.
Proof.
  intros Hin. destruct (dict_get k d) as [v|] eqn:E; eauto.
  apply dict_get_none_iff in E. contradiction.
Qed.

Lemma dict_get_some_keys k v d : dict_get k d = Some v -> In k (keys d).
Proof.
  intros H. apply dict_get_some_in in H.
  unfold keys. change k with (fst (k, v)). now apply in_map.
Qed.

Lemma dict_get_nodup k v d :
  NoDup (keys d) -> In (k, v) d -> dict_get k d = Some v.
Proof.
  induction d as [|[k' v'] d IH]; simpl; [tauto|].
  intros Hnd [H|H].
  - injection H as -> ->. now rewrite String.eqb_refl.
  - inversion Hnd as [|? ? Hnotin Hnd']; subst.
    destruct (String.eqb k k') eqn:E; auto.
    apply String.eqb_eq in E. subst. exfalso. apply Hnotin.
    unfold keys. change k' with (fst (k', v)). now apply in_map.
Qed.

Lemma keys_dict_set_present k v d :
  In k (keys d) -> keys (dict_set k v d) = keys d.
Proof.
  induction d as [|[k' v'] d IH]; simpl; [tauto|].
  intros Hin. destruct (String.eqb k k') eqn:E; simpl; auto.
  f_equal. apply IH. destruct Hin as [H|H]; auto.
  apply String.eqb_neq in E. congruence.
Qed.

Lemma keys_dict_set_absent k v d :
  ~ In k (keys d) -> keys (dict_set k v d) = keys d ++ [k].
Proof.
  induction d as [|[k' v'] d IH]; simpl; auto.
  intros Hnin. destruct (String.eqb k k') eqn:E; simpl.
  - apply String.eqb_eq in E. subst. tauto.
  - f_equal. apply IH. tauto.
Qed.

Lemma in_keys_dict_set k k' v d :
  In k' (keys (dict_set k v d)) <-> k' = k \/ In k' (keys d).
Proof.
  destruct (in_dec string_dec k (keys d)) as [Hin|Hnin].
  - rewrite keys_dict_set_present by assumption.
    split; [tauto|]. intros [->|H]; auto.
  - rewrite keys_dict_set_absent by assumption.
    rewrite in_app_iff. simpl. intuition congruence.
Qed.

Lemma getitem_ok k d v : dict_get k d = Some v -> getitem k d = Ok v.
Proof. unfold getitem. now intros ->. Qed.

Lemma getitem_raise k d : dict_get k d = None -> getitem k d = Raise (KeyError k).
Proof. unfold getitem. now intros ->. Qed.

End DictFacts.

(** ** Running counters *)

Lemma zsum_perm l1 l2 : Permutation l1 l2 -> zsum l1 = zsum l2.
Proof. unfold zsum. induction 1; simpl; lia. Qed.

Lemma length_running_ranks cnt ps : length (running_ranks cnt ps) = length ps.
Proof. revert cnt. induction ps; simpl; auto. Qed.

Lemma running_ranks_ext cnt cnt' ps :
  (forall p, cnt p = cnt' p) -> running_ranks cnt ps = running_ranks cnt' ps.
Proof.
  revert cnt cnt'. induction ps as [|p ps IH]; intros cnt cnt' H; simpl; auto.
  rewrite H. f_equal. apply IH. intros q. unfold bump. now rewrite H.
Qed.

Lemma bump_same cnt p : bump cnt p p = cnt p + 1.
Proof. unfold bump. now rewrite String.eqb_refl. Qed.

Lemma bump_other cnt p q : q <> p -> bump cnt p q = cnt q.
Proof.
  intros H. unfold bump. destruct (String.eqb q p) eqn:E; auto.
  apply String.eqb_eq in E. contradiction.
Qed.

(** The ranks seen by the elements of one position are consecutive. *)
Lemma running_ranks_filter cnt ps pos :
  map snd (filter (fun x => String.eqb pos (fst x))
             (combine ps (running_ranks cnt ps)))
  = zseq (cnt pos) (count_pos pos ps).
Proof.
  revert cnt. unfold count_pos.
  induction ps as [|p ps IH]; intros cnt; simpl; auto.
  destruct (String.eqb pos p) eqn:E; simpl.
  - apply String.eqb_eq in E. subst p. rewrite IH, bump_same. reflexivity.
  - apply String.eqb_neq in E. rewrite IH, bump_other by assumption.
    reflexivity.
Qed.

(** The element at index [i] sees the initial counter plus the number of
    earlier elements of its position. *)
Lemma running_ranks_nth cnt ps i p :
  nth_error ps i = Some p ->
  nth_error (running_ranks cnt ps) i
  = Some (cnt p + Z.of_nat (count_pos p (firstn i ps))).
Proof.
  revert cnt i. unfold count_pos.
  induction ps as [|q ps IH]; intros cnt i H.
  - destruct i; discriminate.
  - destruct i as [|i]; simpl in *.
    + injection H as ->. f_equal. lia.
    + rewrite (IH _ _ H). f_equal.
      destruct (String.eqb p q) eqn:E.
      * apply String.eqb_eq in E. subst q. rewrite bump_same.
        cbn [length]. lia.
      * apply String.eqb_neq in E. rewrite bump_other by assumption. lia.
Qed.

Lemma bump_comm cnt p q r : bump (bump cnt p) q r = bump (bump cnt q) p r.
Proof.
  unfold bump.
  destruct (String.eqb r p), (String.eqb r q); reflexivity.
Qed.

(** The total of the ranks handed out only depends on how many elements
    each position has. *)
Lemma zsum_running_ranks_perm cnt ps ps' :
  Permutation ps ps' ->
  zsum (running_ranks cnt ps) = zsum (running_ranks cnt ps').
Proof.
  intros H. revert cnt.
  induction H as [|p ps ps' _ IH|p q ps|ps ps' ps'' _ IH1 _ IH2]; intros cnt.
  - reflexivity.
  - simpl. unfold zsum in *. simpl. now rewrite IH.
  - simpl. unfold zsum. simpl.
    rewrite (running_ranks_ext (bump (bump cnt q) p) (bump (bump cnt p) q))
      by (intros r; apply bump_comm).
    destruct (string_dec p q) as [->|Hne].
    + lia.
    + rewrite (bump_other cnt q p), (bump_other cnt p q) by congruence. lia.
  - now rewrite IH1, IH2.
Qed.

(** ** Runs of assignments *)

Section SetAllFacts.
Context {V : Type}.
Implicit Types (d : dict V) (kvs : list (string * V)).

Lemma in_keys_set_all kvs d k :
  In k (keys (set_all kvs d)) <-> In k (map fst kvs) \/ In k (keys d).
Proof.
  revert d. induction kvs as [|[k' v'] kvs IH]; intros d; simpl.
  - tauto.
  - unfold set_all in *. simpl. rewrite IH, in_keys_dict_set.
    intuition congruence.
Qed.

Lemma dict_get_set_all_other kvs d k :
  ~ In k (map fst kvs) -> dict_get k (set_all kvs d) = dict_get k d.
Proof.
  revert d. induction kvs as [|[k' v'] kvs IH]; intros d Hnin; simpl in *.
  - reflexivity.
  - unfold set_all in *. simpl. rewrite IH by tauto.
    apply dict_get_set_neq. intros ->. tauto.
Qed.

Lemma dict_get_set_all_nodup kvs d k v :
  NoDup (map fst kvs) -> In (k, v) kvs -> dict_get k (set_all kvs d) = Some v.
Proof.
  revert d. induction kvs as [|[k' v'] kvs IH]; intros d Hnd Hin; simpl in *.
  - contradiction.
  - inversion Hnd as [|? ? Hnotin Hnd']; subst.
    unfold set_all in *. simpl. destruct Hin as [H|H].
    + injection H as -> ->.
      fold (set_all kvs (dict_set k v d)).
      rewrite dict_get_set_all_other by assumption.
      apply dict_get_set_eq.
    + now apply IH.
Qed.

End SetAllFacts.

(** ** Stable sorting *)

Section StableSortFacts.
Context {A K : Type}.
Variable lt : K -> K -> bool.
Variable key : A -> K.

Lemma insert_asc_perm x l : Permutation (insert_asc lt key x l) (x :: l).
Proof.
  induction l as [|y l IH]; simpl; auto.
  destruct (lt (key y) (key x)); auto.
  rewrite IH. apply perm_swap.
Qed.

Lemma insert_desc_perm x l : Permutation (insert_desc lt key x l) (x :: l).
Proof.
  induction l as [|y l IH]; simpl; auto.
  destruct (lt (key x) (key y)); auto.
  rewrite IH. apply perm_swap.
Qed.

(** Whatever [<] does, the result of sorting is a rearrangement of the
    input. *)
Lemma sorted_perm reverse l : Permutation (sorted lt key reverse l) l.
Proof.
  unfold sorted. induction l as [|x l IH]; simpl; auto.
  destruct reverse.
  - rewrite insert_desc_perm. now constructor.
  - rewrite insert_asc_perm. now constructor.
Qed.

(** [<] is a strict weak order on the keys. *)
Hypothesis lt_asym : forall x y, lt x y = true -> lt y x = false.
Hypothesis lt_negtrans :
  forall x y z, lt x y = false -> lt y z = false -> lt x z = false.

Lemma insert_desc_sorted x l :
  StronglySorted (not_before_desc lt key) l ->
  StronglySorted (not_before_desc lt key) (insert_desc lt key x l).
Proof.
  induction 1 as [|y l Hs IH Hall]; simpl.
  - repeat constructor.
  - destruct (lt (key x) (key y)) eqn:E.
    + constructor; auto.
      apply (Permutation_Forall (x := x :: l)).
      * symmetry. apply insert_desc_perm.
      * constructor; auto. now apply lt_asym.
    + constructor.
      * now constructor.
      * constructor; auto.
        eapply Forall_impl; [|exact Hall].
        intros z Hz. unfold not_before_desc in *. eauto.
Qed.

Lemma insert_asc_sorted x l :
  StronglySorted (not_before_asc lt key) l ->
  StronglySorted (not_before_asc lt key) (insert_asc lt key x l).
Proof.
  induction 1 as [|y l Hs IH Hall]; simpl.
  - repeat constructor.
  - destruct (lt (key y) (key x)) eqn:E.
    + constructor; auto.
      apply (Permutation_Forall (x := x :: l)).
      * symmetry. apply insert_asc_perm.
      * constructor; auto. now apply lt_asym.
    + constructor.
      * now constructor.
      * constructor; auto.
        eapply Forall_impl; [|exact Hall].
        intros z Hz. unfold not_before_asc in *. eauto.
Qed.

Lemma sorted_desc_sorted l :
  StronglySorted (not_before_desc lt key) (sorted lt key true l).
Proof.
  unfold sorted. induction l; simpl; [constructor|].
  now apply insert_desc_sorted.
Qed.

Lemma sorted_asc_sorted l :
  StronglySorted (not_before_asc lt key) (sorted lt key false l).
Proof.
  unfold sorted. induction l; simpl; [constructor|].
  now apply insert_asc_sorted.
Qed.

End StableSortFacts.

(** ** Generic list facts *)

Lemma Some_eq_inv {A : Type} (x y : A) : Some x = Some y -> x = y.
Proof. congruence. Qed.

Lemma Permutation_filter {A : Type} (f : A -> bool) (l l' : list A) :
  Permutation l l' -> Permutation (filter f l) (filter f l').
Proof.
  induction 1 as [|x l l' _ IH|x y l|l l' l'' _ IH1 _ IH2]; simpl.
  - constructor.
  - destruct (f x); auto.
  - destruct (f x), (f y); auto. apply perm_swap.
  - now rewrite IH1.
Qed.

Lemma Forall2_of_combine {A B : Type} (R : A -> B -> Prop) l1 l2 :
  length l1 = length l2 ->
  (forall x y, In (x, y) (combine l1 l2) -> R x y) ->
  Forall2 R l1 l2.
Proof.
  revert l2. induction l1 as [|x l1 IH]; intros [|y l2] Hlen H;
    simpl in *; try discriminate; constructor.
  - apply H. now left.
  - apply IH; [lia|]. intros. apply H. now right.
Qed.

Lemma Forall2_nth_error {A B : Type} (R : A -> B -> Prop) l1 l2 i x :
  Forall2 R l1 l2 -> nth_error l1 i = Some x ->
  exists y, nth_error l2 i = Some y /\ R x y.
Proof.
  intros H. revert i. induction H as [|a b l1 l2 Hab _ IH]; intros i Hi.
  - destruct i; discriminate.
  - destruct i as [|i]; simpl in *.
    + injection Hi as ->. eauto.
    + auto.
Qed.

Lemma map_fst_combine {A B : Type} (l1 : list A) (l2 : list B) :
  length l1 = length l2 -> map fst (combine l1 l2) = l1.
Proof.
  revert l2. induction l1 as [|x l1 IH]; intros [|y l2] H;
    simpl in *; try discriminate; auto.
  f_equal. apply IH. lia.
Qed.

Lemma in_combine_map_l {A B C : Type} (f : A -> C) l1 (l2 : list B) x y :
  In (x, y) (combine l1 l2) -> In (f x, y) (combine (map f l1) l2).
Proof.
  revert l2. induction l1 as [|a l1 IH]; intros [|b l2] H; simpl in *;
    try contradiction.
  destruct H as [H|H].
  - injection H as -> ->. now left.
  - right. now apply IH.
Qed.

Lemma StronglySorted_nth_error {A : Type} (R : A -> A -> Prop) l i j x y :
  StronglySorted R l -> (i < j)%nat ->
  nth_error l i = Some x -> nth_error l j = Some y -> R x y.
Proof.
  intros H. revert i j. induction H as [|a l Hs IH Hall]; intros i j Hij Hi Hj.
  - destruct i; discriminate.
  - destruct j as [|j]; [lia|]. simpl in Hj.
    destruct i as [|i]; simpl in Hi.
    + injection Hi as ->. rewrite Forall_forall in Hall.
      apply Hall. eapply nth_error_In; eauto.
    + apply (IH i j); auto. lia.
Qed.

Lemma count_pos_firstn_lt p ps i j :
  (i < j)%nat -> nth_error ps i = Some p -> (j <= length ps)%nat ->
  (count_pos p (firstn i ps) < count_pos p (firstn j ps))%nat.
Proof.
  unfold count_pos. revert i j.
  induction ps as [|q ps IH]; intros i j Hij Hi Hj.
  - destruct i; discriminate.
  - destruct j as [|j]; [lia|]. simpl in Hj.
    destruct i as [|i]; simpl in Hi.
    + injection Hi as ->. simpl. rewrite String.eqb_refl. simpl. lia.
    + simpl. specialize (IH i j ltac:(lia) Hi ltac:(lia)).
      destruct (String.eqb p q); simpl; lia.
Qed.

(** ** Season-end ranks *)

Lemma counter_of_set dflt curr p q :
  counter_of dflt (dict_set p (counter_of dflt curr p + 1) curr) q
  = bump (counter_of dflt curr) p q.
Proof.
  unfold counter_of, bump. destruct (String.eqb q p) eqn:E.
  - apply String.eqb_eq in E. subst q. now rewrite dict_get_set_eq.
  - apply String.eqb_neq in E. rewrite dict_get_set_neq by congruence.
    reflexivity.
Qed.

Lemma counter_of_initial pos :
  counter_of 1
    [("QB", 1); ("RB", 1); ("WR", 1); ("TE", 1); ("K", 1); ("DEF", 1)] pos = 1.
Proof.
  unfold counter_of. simpl.
  repeat match goal with
         | |- context [String.eqb ?a ?b] => destruct (String.eqb a b)
         end; reflexivity.
Qed.

Section SeasonRanks.
Context {Points : Type}.
Implicit Types (players : list (YahooPlayerData.t Points)).

(** With a bucket for every position met, the loop never raises and
    stores, for each record in turn, the running rank of its position. *)
Lemma season_point_ranks_loop_ok players ranks curr :
  Forall (fun pd => In (YahooPlayerData.position pd) (keys curr)) players ->
  season_point_ranks_loop players ranks curr
  = Ok (set_all
          (combine (map YahooPlayerData.id players)
             (running_ranks (counter_of 1 curr)
                (map YahooPlayerData.position players)))
          ranks).
Proof.
  intros H. revert ranks curr H.
  induction players as [|pd players IH]; intros ranks curr H.
  - reflexivity.
  - inversion H as [|? ? Hpd Hrest]; subst.
    destruct (dict_get_in_keys _ _ Hpd) as [c Hc].
    cbn [season_point_ranks_loop].
    rewrite (getitem_ok _ _ _ Hc). cbn [bind].
    rewrite IH.
    + cbn [map running_ranks combine]. unfold set_all. cbn [fold_left fst snd].
      replace (counter_of 1 curr (YahooPlayerData.position pd)) with c
        by (unfold counter_of; now rewrite Hc).
      do 3 f_equal. apply running_ranks_ext. intros q.
      rewrite <- counter_of_set. unfold counter_of at 3. now rewrite Hc.
    + eapply Forall_impl; [|exact Hrest]. intros a Ha.
      now rewrite keys_dict_set_present.
Qed.

(** A record whose position has no bucket makes the loop raise. *)
Lemma season_point_ranks_loop_raise players ranks curr :
  Exists (fun pd => ~ In (YahooPlayerData.position pd) (keys curr)) players ->
  exists pos, ~ In pos (keys curr) /\
    season_point_ranks_loop players ranks curr = Raise (KeyError pos).
Proof.
  revert ranks curr.
  induction players as [|pd players IH]; intros ranks curr H.
  - inversion H.
  - cbn [season_point_ranks_loop].
    destruct (dict_get (YahooPlayerData.position pd) curr) as [c|] eqn:Hc.
    + rewrite (getitem_ok _ _ _ Hc). cbn [bind].
      pose proof (dict_get_some_keys _ _ _ Hc) as Hin.
      inversion H as [? ? Hbad|? ? Hbad]; subst; [contradiction|].
      destruct (IH (dict_set (YahooPlayerData.id pd) c ranks)
                  (dict_set (YahooPlayerData.position pd) (c + 1) curr))
        as (pos & Hpos & Heq).
      * eapply Exists_impl; [|exact Hbad]. intros a Ha.
        now rewrite keys_dict_set_present.
      * exists pos. split; auto.
        now rewrite keys_dict_set_present in Hpos.
    + rewrite (getitem_raise _ _ Hc). cbn [bind].
      exists (YahooPlayerData.position pd). split; auto.
      now apply dict_get_none_iff.
Qed.

Variable points_lt : Points -> Points -> bool.
Implicit Types (player_data : dict (YahooPlayerData.t Points)).

Lemma season_order_perm player_data :
  Permutation (season_order points_lt player_data) (values player_data).
Proof. apply sorted_perm. Qed.

Lemma season_point_ranks_ok player_data :
  positions_known player_data ->
  _get_player_position_season_point_ranks points_lt player_data
  = Ok (set_all
          (combine
             (map YahooPlayerData.id (season_order points_lt player_data))
             (season_rank_values points_lt player_data))
          []).
Proof.
  intros Hpos. unfold _get_player_position_season_point_ranks.
  rewrite season_point_ranks_loop_ok.
  - unfold season_rank_values, season_order. do 3 f_equal.
    apply running_ranks_ext. intros q. apply counter_of_initial.
  - eapply Permutation_Forall; [symmetry; apply sorted_perm|].
    exact Hpos.
Qed.

Lemma length_season_rank_values player_data :
  length (season_rank_values points_lt player_data)
  = length (season_order points_lt player_data).
Proof.
  unfold season_rank_values. now rewrite length_running_ranks, length_map.
Qed.

(** The returned dictionary has exactly the record ids as keys. *)
Lemma season_point_ranks_keys player_data ranks k :
  _get_player_position_season_point_ranks points_lt player_data = Ok ranks ->
  In k (keys ranks) -> In k (map YahooPlayerData.id (values player_data)).
Proof.
  unfold _get_player_position_season_point_ranks.
  set (sl := sorted _ _ _ _).
  assert (Hincl : forall x, In x (map YahooPlayerData.id sl) ->
                            In x (map YahooPlayerData.id (values player_data))).
  { intros x. apply Permutation_in. apply Permutation_map. apply sorted_perm. }
  assert (Hgen : forall players r0 curr ranks',
             season_point_ranks_loop players r0 curr = Ok ranks' ->
             In k (keys ranks') ->
             In k (map YahooPlayerData.id players) \/ In k (keys r0)).
  { induction players as [|pd players IH]; intros r0 curr ranks' Heq Hin.
    - injection Heq as <-. now right.
    - cbn [season_point_ranks_loop] in Heq.
      destruct (getitem (YahooPlayerData.position pd) curr) as [c|e];
        cbn [bind] in Heq; [|discriminate].
      destruct (IH _ _ _ Heq Hin) as [H|H].
      + left. now right.
      + apply in_keys_dict_set in H. destruct H as [->|H]; auto.
        left. now left. }
  intros Heq Hin. destruct (Hgen _ _ _ _ Heq Hin) as [H|[]]. auto.
Qed.

(** With distinct ids, every record reads back the rank it was given. *)
Lemma season_point_ranks_lookup player_data :
  positions_known player_data ->
  NoDup (map YahooPlayerData.id (values player_data)) ->
  exists ranks,
    _get_player_position_season_point_ranks points_lt player_data = Ok ranks /\
    Forall2 (fun pd r => dict_get (YahooPlayerData.id pd) ranks = Some r)
      (season_order points_lt player_data)
      (season_rank_values points_lt player_data).
Proof.
  intros Hpos Hnd. eexists. split; [now apply season_point_ranks_ok|].
  pose proof (length_season_rank_values player_data) as Hlen.
  set (sl := season_order points_lt player_data) in *.
  set (rs := season_rank_values points_lt player_data) in *.
  assert (Hnd' : NoDup (map YahooPlayerData.id sl)).
  { eapply Permutation_NoDup; [|exact Hnd].
    apply Permutation_map. symmetry. apply season_order_perm. }
  apply Forall2_of_combine; [auto|].
  intros pd r Hin. apply dict_get_set_all_nodup.
  - rewrite map_fst_combine; [auto|]. rewrite length_map. auto.
  - now apply in_combine_map_l.
Qed.

End SeasonRanks.

Lemma lookup_players_at {Points : Type}
    (f : YahooPlayerData.t Points -> option Z) pos sl rs :
  Forall2 (fun pd r => f pd = Some r) sl rs ->
  map f (players_at pos sl)
  = map Some
      (map snd
         (filter (fun x => String.eqb pos (fst x))
            (combine (map YahooPlayerData.position sl) rs))).
Proof.
  induction 1 as [|pd r sl rs Hpd _ IH]; simpl; auto.
  destruct (String.eqb pos (YahooPlayerData.position pd)); simpl; auto.
  now rewrite IH, Hpd.
Qed.

Lemma count_pos_positions {Points : Type} pos
    (l : list (YahooPlayerData.t Points)) :
  count_pos pos (map YahooPlayerData.position l) = length (players_at pos l).
Proof.
  unfold count_pos, players_at. induction l as [|pd l IH]; simpl; auto.
  destruct (String.eqb pos (YahooPlayerData.position pd)); simpl; auto.
Qed.

(** C2, as amended: on a stats mapping with one record per player id whose
    positions all have a bucket, and with [<] a strict weak order on
    season_points (no NaN), [_get_player_position_season_point_ranks]
    returns, and for each position the ranks it stores for the players of
    that position are exactly 1, ..., k (k the number of players of the
    position in the mapping); of two players of one position, the one with
    strictly more [season_points] has the strictly smaller rank. *)
Theorem season_end_ranks_are_1_to_k_by_descending_points
    (Points : Type) (points_lt : Points -> Points -> bool)
    (lt_asym : forall x y, points_lt x y = true -> points_lt y x = false)
    (lt_negtrans : forall x y z,
        points_lt x y = false -> points_lt y z = false -> points_lt x z = false)
    (player_data : dict (YahooPlayerData.t Points)) :
  distinct_ids player_data ->
  positions_known player_data ->
  exists ranks,
    _get_player_position_season_point_ranks points_lt player_data = Ok ranks /\
    (forall pos,
        Permutation
          (map (fun pd => dict_get (YahooPlayerData.id pd) ranks)
             (players_at pos (values player_data)))
          (map Some
             (zseq 1 (length (players_at pos (values player_data)))))) /\
    (forall a b,
        In a (values player_data) -> In b (values player_data) ->
        YahooPlayerData.position a = YahooPlayerData.position b ->
        points_lt (YahooPlayerData.season_points b)
          (YahooPlayerData.season_points a) = true ->
        exists ra rb,
          dict_get (YahooPlayerData.id a) ranks = Some ra /\
          dict_get (YahooPlayerData.id b) ranks = Some rb /\
          ra < rb).
Proof.
  intros Hids Hpos.
  destruct (season_point_ranks_lookup points_lt player_data Hpos Hids)
    as (ranks & Hranks & Hlook).
  pose proof (season_order_perm points_lt player_data) as Hperm.
  exists ranks. split; [exact Hranks|]. split.
  - intros pos.
    transitivity
      (map (fun pd => dict_get (YahooPlayerData.id pd) ranks)
         (players_at pos (season_order points_lt player_data))).
    { apply Permutation_map, Permutation_filter. now symmetry. }
    rewrite (lookup_players_at _ _ _ _ Hlook).
    unfold season_rank_values. rewrite running_ranks_filter.
    rewrite count_pos_positions.
    replace (length (players_at pos (season_order points_lt player_data)))
      with (length (players_at pos (values player_data))).
    + reflexivity.
    + apply Permutation_length, Permutation_filter. now symmetry.
  - intros a b Ha Hb Hab Hlt.
    apply (Permutation_in _ (Permutation_sym Hperm)) in Ha, Hb.
    destruct (In_nth_error _ _ Ha) as [i Hi].
    destruct (In_nth_error _ _ Hb) as [j Hj].
    destruct (Forall2_nth_error _ _ _ _ _ Hlook Hi) as (ra & Hra & Hga).
    destruct (Forall2_nth_error _ _ _ _ _ Hlook Hj) as (rb & Hrb & Hgb).
    exists ra, rb. split; [exact Hga|]. split; [exact Hgb|].
    assert (Hij : (i < j)%nat).
    { destruct (lt_eq_lt_dec i j) as [[H|H]|H]; auto.
      - subst j. rewrite Hi in Hj. injection Hj as ->.
        pose proof (lt_asym _ _ Hlt). congruence.
      - pose proof (StronglySorted_nth_error _ _ _ _ _ _
                      (sorted_desc_sorted points_lt
                         YahooPlayerData.season_points lt_asym lt_negtrans
                         (values player_data)) H Hj Hi) as Hs.
        unfold not_before_desc in Hs. congruence. }
    unfold season_rank_values in Hra, Hrb.
    rewrite (running_ranks_nth _ _ i (YahooPlayerData.position a)) in Hra
      by (rewrite nth_error_map, Hi; reflexivity).
    rewrite (running_ranks_nth _ _ j (YahooPlayerData.position b)) in Hrb
      by (rewrite nth_error_map, Hj; reflexivity).
    apply Some_eq_inv in Hra, Hrb. subst ra rb. rewrite <- Hab.
    assert (j <= length (map YahooPlayerData.position
                           (season_order points_lt player_data)))%nat.
    { rewrite length_map. apply Nat.lt_le_incl.
      apply nth_error_Some. congruence. }
    pose proof (count_pos_firstn_lt (YahooPlayerData.position a)
                  (map YahooPlayerData.position
                     (season_order points_lt player_data)) i j Hij
                  ltac:(rewrite nth_error_map, Hi; reflexivity)
                  ltac:(assumption)).
    lia.
Qed.

Lemma Zltb_asym x y : Z.ltb x y = true -> Z.ltb y x = false.
Proof. rewrite Z.ltb_lt, Z.ltb_ge. lia. Qed.

Lemma Zltb_negtrans x y z :
  Z.ltb x y = false -> Z.ltb y z = false -> Z.ltb x z = false.
Proof. rewrite !Z.ltb_ge. lia. Qed.

Lemma season_end_ranks_are_1_to_k_by_descending_points_witness :
  exists ranks,
    _get_player_position_season_point_ranks Z.ltb ex_stats = Ok ranks /\
    (forall pos,
        Permutation
          (map (fun pd => dict_get (YahooPlayerData.id pd) ranks)
             (players_at pos (values ex_stats)))
          (map Some (zseq 1 (length (players_at pos (values ex_stats)))))) /\
    (forall a b,
        In a (values ex_stats) -> In b (values ex_stats) ->
        YahooPlayerData.position a = YahooPlayerData.position b ->
        Z.ltb (YahooPlayerData.season_points b)
          (YahooPlayerData.season_points a) = true ->
        exists ra rb,
          dict_get (YahooPlayerData.id a) ranks = Some ra /\
          dict_get (YahooPlayerData.id b) ranks = Some rb /\
          ra < rb).
Proof.
  apply (season_end_ranks_are_1_to_k_by_descending_points Z Z.ltb).
  - intros x y. rewrite Z.ltb_lt, Z.ltb_ge. lia.
  - intros x y z. rewrite !Z.ltb_ge. lia.
  - unfold distinct_ids. simpl. solve_nodup.
  - solve_forall solve_in.
Defined.

(** C2, as stated, fails on mappings it does not exclude.  With two records
    of one id the later assignment overwrites the earlier, so the two
    quarterbacks of [twin_stats] both read rank 2 and rank 1 is given to
    nobody.  With a NaN among the points [<] orders nothing against it: in
    [nan_stats] the sort leaves the records as they are (Python's sort
    reverses the keys to 2, NaN, 1, finds no element smaller than the one
    before it, and reverses back), and the quarterback with 2 points gets
    rank 3, behind the one with 1 point. *)
Lemma season_end_ranks_counterexample :
  (positions_known twin_stats /\
   ~ (exists ranks,
         _get_player_position_season_point_ranks Z.ltb twin_stats = Ok ranks /\
         forall pos,
           Permutation
             (map (fun pd => dict_get (YahooPlayerData.id pd) ranks)
                (players_at pos (values twin_stats)))
             (map Some
                (zseq 1 (length (players_at pos (values twin_stats))))))) /\
  (positions_known nan_stats /\
   distinct_ids nan_stats /\
   ~ (exists ranks,
         _get_player_position_season_point_ranks nan_lt nan_stats = Ok ranks /\
         forall a b,
           In a (values nan_stats) -> In b (values nan_stats) ->
           YahooPlayerData.position a = YahooPlayerData.position b ->
           nan_lt (YahooPlayerData.season_points b)
             (YahooPlayerData.season_points a) = true ->
           exists ra rb,
             dict_get (YahooPlayerData.id a) ranks = Some ra /\
             dict_get (YahooPlayerData.id b) ranks = Some rb /\
             ra < rb)).
Proof.
  split.
  - split; [solve_forall solve_in|].
    intros (ranks & Heq & Hperm). vm_compute in Heq. injection Heq as <-.
    specialize (Hperm "QB").
    assert (Hin : In (Some 1)
                    (map (fun pd => dict_get (YahooPlayerData.id pd) [("x", 2)])
                       (players_at "QB" (values twin_stats)))).
    { eapply Permutation_in; [symmetry; exact Hperm|]. simpl. now left. }
    simpl in Hin. intuition discriminate.
  - split; [solve_forall solve_in|].
    split; [unfold distinct_ids; simpl; solve_nodup|].
    intros (ranks & Heq & Horder). vm_compute in Heq. injection Heq as <-.
    destruct (Horder (YahooPlayerData.mk "3" "QB" (Some 2))
                (YahooPlayerData.mk "1" "QB" (Some 1)))
      as (ra & rb & Hra & Hrb & Hlt);
      [solve_in|solve_in|reflexivity|reflexivity|].
    simpl in Hra, Hrb. injection Hra as <-. injection Hrb as <-. lia.
Qed.

(** ** defaultdict *)

Section DefaultDictFacts.
Context {V : Type}.
Implicit Types (d : defaultdict V) (k q : string) (v : V).

Lemma dd_getitem_fst k d : fst (dd_getitem k d) = dd_val d k.
Proof.
  unfold dd_getitem, dd_val. destruct (dict_get k (items d)); reflexivity.
Qed.

Lemma dd_getitem_factory k d :
  default_factory (snd (dd_getitem k d)) = default_factory d.
Proof.
  unfold dd_getitem. destruct (dict_get k (items d)); reflexivity.
Qed.

Lemma dd_getitem_val k d q : dd_val (snd (dd_getitem k d)) q = dd_val d q.
Proof.
  unfold dd_getitem, dd_val.
  destruct (dict_get k (items d)) eqn:E; cbn [snd items default_factory]; auto.
  destruct (string_dec k q) as [->|Hne].
  - now rewrite dict_get_set_eq, E.
  - now rewrite dict_get_set_neq.
Qed.

Lemma dd_getitem_present k d v :
  dict_get k (items d) = Some v -> dd_getitem k d = (v, d).
Proof. unfold dd_getitem. now intros ->. Qed.

Lemma dd_getitem_keys k d q :
  In q (keys (items (snd (dd_getitem k d)))) <-> q = k \/ In q (keys (items d)).
Proof.
  unfold dd_getitem. destruct (dict_get k (items d)) eqn:E; cbn [snd items].
  - apply dict_get_some_keys in E. intuition congruence.
  - apply in_keys_dict_set.
Qed.

Lemma dd_setitem_val k v d q :
  dd_val (dd_setitem k v d) q = if String.eqb q k then v else dd_val d q.
Proof.
  unfold dd_setitem, dd_val. cbn [items default_factory].
  destruct (String.eqb q k) eqn:E.
  - apply String.eqb_eq in E. subst. now rewrite dict_get_set_eq.
  - apply String.eqb_neq in E. now rewrite dict_get_set_neq by congruence.
Qed.

End DefaultDictFacts.

(** One round of [rank = d[p]; d[p] += 1] on a defaultdict of counters. *)
Lemma draft_rank_step p (curr : defaultdict Z) :
  forall dr c1 c c2,
    dd_getitem p curr = (dr, c1) -> dd_getitem p c1 = (c, c2) ->
    dr = dd_val curr p /\
    forall q, dd_val (dd_setitem p (c + 1) c2) q = bump (dd_val curr) p q.
Proof.
  intros dr c1 c c2 H1 H2.
  pose proof (dd_getitem_fst p curr) as F1. rewrite H1 in F1. simpl in F1.
  pose proof (dd_getitem_fst p c1) as F2. rewrite H2 in F2. simpl in F2.
  split; [exact F1|]. intros q. rewrite dd_setitem_val. unfold bump.
  assert (Hc1 : forall q, dd_val c1 q = dd_val curr q).
  { intros q'. pose proof (dd_getitem_val p curr q') as G.
    now rewrite H1 in G. }
  assert (Hc2 : forall q, dd_val c2 q = dd_val curr q).
  { intros q'. pose proof (dd_getitem_val p c1 q') as G.
    rewrite H2 in G. simpl in G. now rewrite G. }
  destruct (String.eqb q p) eqn:E.
  - apply String.eqb_eq in E. subst q. rewrite F2, Hc1. reflexivity.
  - apply Hc2.
Qed.

(** ** The draft loop *)

Section DraftLoop.
Context {Points : Type}.
Variable player_data : dict (YahooPlayerData.t Points).
Variable ranks : dict Z.

(** When every pick is found in both dictionaries the loop appends one
    analysis per pick, in order, and the draft ranks are the running
    per-position counters. *)
Lemma player_analysis_loop_ok draft_picks curr acc :
  Forall (fun pick => In (DraftPick.id pick) (keys player_data) /\
                      In (DraftPick.id pick) (keys ranks)) draft_picks ->
  exists out,
    player_analysis_loop draft_picks player_data ranks curr acc
    = Ok (acc ++ out) /\
    Forall2
      (fun pick pa =>
         derived_from player_data pick pa /\
         dict_get (DraftPick.id pick) ranks
         = Some (PlayerAnalysis.season_end_position_rank pa))
      draft_picks out /\
    map PlayerAnalysis.draft_position_rank out
    = running_ranks (dd_val curr)
        (map (position_or_empty player_data) draft_picks).
Proof.
  intros H. revert curr acc.
  induction H as [|pick picks [Hpd Hr] _ IH]; intros curr acc.
  - exists []. cbn. rewrite app_nil_r. repeat split; constructor.
  - destruct (dict_get_in_keys _ _ Hpd) as [pd Epd].
    destruct (dict_get_in_keys _ _ Hr) as [r Er].
    cbn [player_analysis_loop].
    rewrite (getitem_ok _ _ _ Epd), (getitem_ok _ _ _ Er). cbn [bind].
    destruct (dd_getitem (YahooPlayerData.position pd) curr)
      as [dr c1] eqn:E1.
    destruct (dd_getitem (YahooPlayerData.position pd) c1) as [c c2] eqn:E2.
    destruct (draft_rank_step _ _ _ _ _ _ E1 E2) as [Hdr Hbump].
    match goal with
    | |- context [player_analysis_loop picks _ _ ?c' (acc ++ [?pa])] =>
        destruct (IH c' (acc ++ [pa])) as (out & Heq & Hall & Hranks);
        exists (pa :: out)
    end.
    split; [|split].
    + rewrite Heq, <- app_assoc. reflexivity.
    + constructor; [|exact Hall]. split.
      * exists pd. cbn. repeat split; auto.
      * cbn. exact Er.
    + cbn [map running_ranks PlayerAnalysis.draft_position_rank].
      assert (Hp : position_or_empty player_data pick
                   = YahooPlayerData.position pd).
      { unfold position_or_empty, pick_position. now rewrite Epd. }
      rewrite Hp, Hdr. f_equal. rewrite Hranks.
      apply running_ranks_ext. exact Hbump.
Qed.

(** A pick missing from either dictionary makes the loop raise. *)
Lemma player_analysis_loop_raise draft_picks curr acc :
  Exists (fun pick => ~ In (DraftPick.id pick) (keys player_data) \/
                      ~ In (DraftPick.id pick) (keys ranks)) draft_picks ->
  exists k, (~ In k (keys player_data) \/ ~ In k (keys ranks)) /\
    player_analysis_loop draft_picks player_data ranks curr acc
    = Raise (KeyError k).
Proof.
  intros H. revert curr acc.
  induction draft_picks as [|pick picks IH]; intros curr acc.
  - inversion H.
  - cbn [player_analysis_loop].
    destruct (dict_get (DraftPick.id pick) player_data) as [pd|] eqn:Epd.
    + rewrite (getitem_ok _ _ _ Epd). cbn [bind].
      destruct (dd_getitem (YahooPlayerData.position pd) curr) as [dr c1].
      destruct (dd_getitem (YahooPlayerData.position pd) c1) as [c c2].
      destruct (dict_get (DraftPick.id pick) ranks) as [r|] eqn:Er.
      * rewrite (getitem_ok _ _ _ Er). cbn [bind].
        apply IH. inversion H as [? ? Hbad|? ? Hbad]; subst; auto.
        apply dict_get_some_keys in Epd, Er. tauto.
      * rewrite (getitem_raise _ _ Er). cbn [bind].
        exists (DraftPick.id pick). split; auto.
        right. now apply dict_get_none_iff.
    + rewrite (getitem_raise _ _ Epd). cbn [bind].
      exists (DraftPick.id pick). split; auto.
      left. now apply dict_get_none_iff.
Qed.

End DraftLoop.

(** ** [get_player_analysis] *)


Section PlayerAnalysisFacts.
Context {Points : Type}.
Variable points_lt : Points -> Points -> bool.
Implicit Types (player_data : dict (YahooPlayerData.t Points)).

Lemma season_point_ranks_keys_known player_data ranks k :
  positions_known player_data ->
  _get_player_position_season_point_ranks points_lt player_data = Ok ranks ->
  In k (map YahooPlayerData.id (values player_data)) -> In k (keys ranks).
Proof.
  intros Hpos Heq Hin. rewrite season_point_ranks_ok in Heq by assumption.
  injection Heq as <-. apply in_keys_set_all. left.
  rewrite map_fst_combine.
  - eapply Permutation_in; [|exact Hin].
    apply Permutation_map. symmetry. apply season_order_perm.
  - now rewrite length_map, length_season_rank_values.
Qed.

Lemma get_player_analysis_ok draft_picks player_data :
  positions_known player_data ->
  covers player_data draft_picks ->
  exists ranks out,
    _get_player_position_season_point_ranks points_lt player_data = Ok ranks /\
    get_player_analysis points_lt draft_picks player_data = Ok out /\
    Forall2
      (fun pick pa =>
         derived_from player_data pick pa /\
         dict_get (DraftPick.id pick) ranks
         = Some (PlayerAnalysis.season_end_position_rank pa))
      draft_picks out /\
    map PlayerAnalysis.draft_position_rank out
    = running_ranks (fun _ => 1)
        (map (position_or_empty player_data) draft_picks).
Proof.
  intros Hpos Hcov.
  pose proof (season_point_ranks_ok points_lt player_data Hpos) as Hranks.
  set (ranks := set_all _ _) in Hranks.
  destruct (player_analysis_loop_ok player_data ranks draft_picks
              (mk_defaultdict (fun _ => 1) []) [])
    as (out & Heq & Hall & Hdr).
  { eapply Forall_impl; [|exact Hcov]. intros pick (pd & Hpd & Hid). split.
    - eapply dict_get_some_keys; eauto.
    - eapply season_point_ranks_keys_known; eauto. rewrite <- Hid.
      apply in_map. apply dict_get_some_in in Hpd.
      unfold values. change pd with (snd (DraftPick.id pick, pd)).
      now apply in_map. }
  exists ranks, out. split; [exact Hranks|]. split; [|split; auto].
  unfold get_player_analysis. rewrite Hranks. cbn [bind]. exact Heq.
Qed.

(** Draft ranks and ids of the analyses of one position. *)
Lemma draft_ranks_at player_data pos draft_picks out cnt :
  Forall2 (derived_from player_data) draft_picks out ->
  map PlayerAnalysis.draft_position_rank out
  = running_ranks cnt (map (position_or_empty player_data) draft_picks) ->
  map PlayerAnalysis.draft_position_rank (analyzed_at pos out)
  = zseq (cnt pos) (length (drafted_at pos player_data draft_picks)) /\
  map PlayerAnalysis.id (analyzed_at pos out)
  = map DraftPick.id (drafted_at pos player_data draft_picks).
Proof.
  intros H. revert cnt.
  induction H as [|pick pa picks out Hd _ IH]; intros cnt Hdr.
  - split; reflexivity.
  - destruct Hd as (pd & Epd & Hid & _ & _ & _ & _ & Hp & _).
    assert (Hpp : pick_position player_data pick
                  = Some (YahooPlayerData.position pd)).
    { unfold pick_position. now rewrite Epd. }
    assert (Hpe : position_or_empty player_data pick
                  = YahooPlayerData.position pd).
    { unfold position_or_empty. now rewrite Hpp. }
    cbn [map running_ranks] in Hdr. rewrite Hpe in Hdr.
    injection Hdr as Hhd Htl.
    destruct (IH _ Htl) as [IH1 IH2].
    unfold analyzed_at, drafted_at in *. cbn [filter].
    rewrite Hpp, Hp.
    destruct (String.eqb pos (YahooPlayerData.position pd)) eqn:E.
    + apply String.eqb_eq in E. cbn [map length zseq].
      rewrite IH1, IH2, Hhd, Hid, <- E, bump_same. split; reflexivity.
    + apply String.eqb_neq in E. rewrite IH1, IH2.
      rewrite bump_other by assumption. split; reflexivity.
Qed.

End PlayerAnalysisFacts.

(** C1, as amended: on a stats mapping that covers every drafted id (it
    holds, under the id, a record carrying that id) and whose positions all
    have a bucket, [get_player_analysis] returns a list
    as long as the draft whose i-th element is derived from the i-th pick:
    its id, team_name, first_name, last_name and overall_pick, the position
    and season_points the mapping has for the id, and differential =
    draft_position_rank - season_end_position_rank. *)
Theorem get_player_analysis_elementwise
    (Points : Type) (points_lt : Points -> Points -> bool)
    (draft_picks : list DraftPick.t)
    (player_data : dict (YahooPlayerData.t Points)) :
  positions_known player_data ->
  covers player_data draft_picks ->
  exists out,
    get_player_analysis points_lt draft_picks player_data = Ok out /\
    length out = length draft_picks /\
    Forall2 (derived_from player_data) draft_picks out.
Proof.
  intros Hpos Hcov.
  destruct (get_player_analysis_ok points_lt draft_picks player_data
              Hpos Hcov) as (ranks & out & _ & Heq & Hall & _).
  exists out. split; [exact Heq|].
  assert (H : Forall2 (derived_from player_data) draft_picks out).
  { eapply Forall2_impl; [|exact Hall]. now intros pick pa [Hd _]. }
  split; [|exact H]. symmetry. eapply Forall2_length; eauto.
Qed.

Lemma get_player_analysis_elementwise_witness :
  exists out,
    get_player_analysis Z.ltb ex_draft ex_stats = Ok out /\
    length out = length ex_draft /\
    Forall2 (derived_from ex_stats) ex_draft out.
Proof.
  apply (get_player_analysis_elementwise Z Z.ltb ex_draft ex_stats).
  - solve_forall solve_in.
  - solve_covers.
Defined.

(** C1, as stated, fails: a covering stats mapping with a position outside
    the six buckets makes [get_player_analysis] raise instead of returning
    a list. *)
Lemma get_player_analysis_elementwise_counterexample :
  covers lb_stats lb_draft /\
  ~ (exists out,
        get_player_analysis Z.ltb lb_draft lb_stats = Ok out /\
        length out = length lb_draft /\
        Forall2 (derived_from lb_stats) lb_draft out).
Proof.
  split.
  - solve_covers.
  - intros (out & Heq & _). vm_compute in Heq. discriminate.
Qed.

(** C3, as amended: on a stats mapping that covers every drafted id (it
    holds, under the id, a record carrying that id) and whose positions all
    have a bucket, the analyses of each position are, in
    draft order, those of the picks of that position, and their
    draft_position_rank values are 1, 2, ..., m in that order (m the number
    of drafted players of the position). *)
Theorem draft_position_ranks_count_up_per_position
    (Points : Type) (points_lt : Points -> Points -> bool)
    (draft_picks : list DraftPick.t)
    (player_data : dict (YahooPlayerData.t Points)) :
  positions_known player_data ->
  covers player_data draft_picks ->
  exists out,
    get_player_analysis points_lt draft_picks player_data = Ok out /\
    forall pos,
      map PlayerAnalysis.id (analyzed_at pos out)
      = map DraftPick.id (drafted_at pos player_data draft_picks) /\
      map PlayerAnalysis.draft_position_rank (analyzed_at pos out)
      = zseq 1 (length (drafted_at pos player_data draft_picks)).
Proof.
  intros Hpos Hcov.
  destruct (get_player_analysis_ok points_lt draft_picks player_data
              Hpos Hcov) as (ranks & out & _ & Heq & Hall & Hdr).
  exists out. split; [exact Heq|]. intros pos.
  assert (H : Forall2 (derived_from player_data) draft_picks out).
  { eapply Forall2_impl; [|exact Hall]. now intros pick pa [Hd _]. }
  destruct (draft_ranks_at player_data pos draft_picks out _ H Hdr).
  split; assumption.
Qed.

Lemma draft_position_ranks_count_up_per_position_witness :
  exists out,
    get_player_analysis Z.ltb ex_draft ex_stats = Ok out /\
    forall pos,
      map PlayerAnalysis.id (analyzed_at pos out)
      = map DraftPick.id (drafted_at pos ex_stats ex_draft) /\
      map PlayerAnalysis.draft_position_rank (analyzed_at pos out)
      = zseq 1 (length (drafted_at pos ex_stats ex_draft)).
Proof.
  apply (draft_position_ranks_count_up_per_position Z Z.ltb ex_draft ex_stats).
  - solve_forall solve_in.
  - solve_covers.
Defined.

(** C3, as stated, fails: the one drafted linebacker of a covering stats
    mapping gets no draft_position_rank at all, because
    [get_player_analysis] raises on the position without a bucket. *)
Lemma draft_position_ranks_counterexample :
  covers lb_stats lb_draft /\
  length (drafted_at "LB" lb_stats lb_draft) = 1%nat /\
  ~ (exists out,
        get_player_analysis Z.ltb lb_draft lb_stats = Ok out /\
        forall pos,
          map PlayerAnalysis.draft_position_rank (analyzed_at pos out)
          = zseq 1 (length (drafted_at pos lb_stats lb_draft))).
Proof.
  split; [|split].
  - solve_covers.
  - reflexivity.
  - intros (out & Heq & _). vm_compute in Heq. discriminate.
Qed.

(** C4: when the stats mapping lacks the id of some draft pick,
    [get_player_analysis] raises a [KeyError]; no analysis list, and so no
    default-valued analysis of that pick, is produced. *)
Theorem get_player_analysis_missing_id_raises
    (Points : Type) (points_lt : Points -> Points -> bool)
    (draft_picks : list DraftPick.t)
    (player_data : dict (YahooPlayerData.t Points)) :
  (exists pick, In pick draft_picks /\
                ~ In (DraftPick.id pick) (keys player_data)) ->
  (exists k, get_player_analysis points_lt draft_picks player_data
             = Raise (KeyError k)) /\
  (forall out, get_player_analysis points_lt draft_picks player_data
               <> Ok out).
Proof.
  intros (pick & Hin & Hmiss).
  assert (H : exists k, get_player_analysis points_lt draft_picks player_data
                        = Raise (KeyError k)).
  { unfold get_player_analysis.
    destruct (_get_player_position_season_point_ranks points_lt player_data)
      as [ranks|[k]]; cbn [bind].
    - destruct (player_analysis_loop_raise player_data ranks draft_picks
                  (mk_defaultdict (fun _ => 1) []) []) as (k & _ & Hk).
      + apply Exists_exists. exists pick. split; auto.
      + eauto.
    - eauto. }
  split; [exact H|]. destruct H as [k Hk]. intros out. rewrite Hk. discriminate.
Qed.

Lemma get_player_analysis_missing_id_raises_witness :
  (exists k, get_player_analysis Z.ltb lb_draft ex_stats = Raise (KeyError k)) /\
  (forall out, get_player_analysis Z.ltb lb_draft ex_stats <> Ok out).
Proof.
  apply (get_player_analysis_missing_id_raises Z Z.ltb lb_draft ex_stats).
  exists (DraftPick.mk "7" "B" "Lee" "Backer" 1). split.
  - solve_in.
  - simpl. intuition discriminate.
Defined.

(** C7: when some entry of the stats mapping has a position outside
    {QB, RB, WR, TE, K, DEF}, the rank computation raises a [KeyError] on a
    position without a bucket, and so does [get_player_analysis], whatever
    the draft. *)
Theorem unknown_position_is_fatal
    (Points : Type) (points_lt : Points -> Points -> bool)
    (player_data : dict (YahooPlayerData.t Points)) :
  (exists pd, In pd (values player_data) /\
              ~ In (YahooPlayerData.position pd) known_positions) ->
  exists pos,
    ~ In pos known_positions /\
    _get_player_position_season_point_ranks points_lt player_data
    = Raise (KeyError pos) /\
    forall draft_picks,
      get_player_analysis points_lt draft_picks player_data
      = Raise (KeyError pos).
Proof.
  intros (pd & Hin & Hbad).
  destruct (season_point_ranks_loop_raise
              (sorted points_lt YahooPlayerData.season_points true
                 (values player_data))
              []
              [("QB", 1); ("RB", 1); ("WR", 1); ("TE", 1); ("K", 1); ("DEF", 1)])
    as (pos & Hpos & Heq).
  { apply Exists_exists. exists pd. split; [|exact Hbad].
    eapply Permutation_in; [symmetry; apply sorted_perm|exact Hin]. }
  exists pos. split; [exact Hpos|]. split; [exact Heq|].
  intros draft_picks. unfold get_player_analysis.
  unfold _get_player_position_season_point_ranks. rewrite Heq. reflexivity.
Qed.

Lemma unknown_position_is_fatal_witness :
  exists pos,
    ~ In pos known_positions /\
    _get_player_position_season_point_ranks Z.ltb lb_stats
    = Raise (KeyError pos) /\
    forall draft_picks,
      get_player_analysis Z.ltb draft_picks lb_stats = Raise (KeyError pos).
Proof.
  apply (unknown_position_is_fatal Z Z.ltb lb_stats).
  exists (YahooPlayerData.mk "7" "LB" 50). split.
  - solve_in.
  - simpl. intuition discriminate.
Defined.

(** ** Aggregation on a defaultdict *)

Section UpdateFacts.
Context {V : Type}.
Implicit Types (d : defaultdict V) (k q : string) (f : V -> V).

Lemma dd_update_val k f d q :
  dd_val (dd_update k f d) q
  = if String.eqb q k then f (dd_val d k) else dd_val d q.
Proof.
  unfold dd_update. destruct (dd_getitem k d) as [v d'] eqn:E.
  pose proof (dd_getitem_fst k d) as F. rewrite E in F. simpl in F.
  pose proof (dd_getitem_val k d q) as G. rewrite E in G. simpl in G.
  rewrite dd_setitem_val, F, G. reflexivity.
Qed.

Lemma dd_update_factory k f d :
  default_factory (dd_update k f d) = default_factory d.
Proof.
  unfold dd_update. destruct (dd_getitem k d) as [v d'] eqn:E.
  pose proof (dd_getitem_factory k d) as F. now rewrite E in F.
Qed.

Lemma dd_update_keys k f d q :
  In q (keys (items (dd_update k f d))) <-> q = k \/ In q (keys (items d)).
Proof.
  unfold dd_update. destruct (dd_getitem k d) as [v d'] eqn:E.
  pose proof (dd_getitem_keys k d q) as G. rewrite E in G. simpl in G.
  unfold dd_setitem. cbn [items]. rewrite in_keys_dict_set. tauto.
Qed.

Lemma NoDup_keys_dict_set k (v : V) (d : dict V) :
  NoDup (keys d) -> NoDup (keys (dict_set k v d)).
Proof.
  intros H. destruct (in_dec string_dec k (keys d)) as [Hin|Hnin].
  - now rewrite keys_dict_set_present.
  - rewrite keys_dict_set_absent by assumption.
    apply NoDup_app; auto.
    + repeat constructor. simpl. tauto.
    + intros x Hx [<-|[]]. contradiction.
Qed.

Lemma dd_update_nodup k f d :
  NoDup (keys (items d)) -> NoDup (keys (items (dd_update k f d))).
Proof.
  intros H. unfold dd_update, dd_getitem, dd_setitem.
  destruct (dict_get k (items d)); cbn [items];
    repeat apply NoDup_keys_dict_set; assumption.
Qed.

(** A key that was stored reads back through [dict_get]. *)
Lemma dict_get_dd_val d k :
  In k (keys (items d)) -> dict_get k (items d) = Some (dd_val d k).
Proof.
  intros H. unfold dd_val.
  destruct (dict_get_in_keys _ _ H) as [v ->]. reflexivity.
Qed.

End UpdateFacts.

(** ** [get_team_differentials] *)

Lemma zsum_values_dict_set k v (d : dict Z) :
  zsum (values (dict_set k v d))
  = zsum (values d) + v - counter_of 0 d k.
Proof.
  unfold counter_of, zsum, values.
  induction d as [|[k' v'] d IH]; simpl.
  - lia.
  - destruct (String.eqb k k'); simpl; lia.
Qed.

Section TeamDifferentials.
Context {Points : Type}.
Implicit Types (players : list (PlayerAnalysis.t Points)).

Lemma get_team_differentials_fold players :
  get_team_differentials players
  = fold_left add_differential players (mk_defaultdict (fun _ => 0) []).
Proof. reflexivity. Qed.

Lemma fold_differentials_val players td team :
  dd_val (fold_left add_differential players td) team
  = dd_val td team
    + zsum (map PlayerAnalysis.differential (on_team team players)).
Proof.
  revert td. induction players as [|p players IH]; intros td; simpl.
  - unfold zsum. simpl. lia.
  - rewrite IH. unfold add_differential. rewrite dd_update_val.
    destruct (String.eqb team (PlayerAnalysis.team_name p)) eqn:E.
    + apply String.eqb_eq in E. subst team. unfold zsum. simpl. lia.
    + lia.
Qed.

Lemma fold_differentials_keys players td team :
  In team (keys (items (fold_left add_differential players td)))
  <-> In team (map PlayerAnalysis.team_name players) \/
      In team (keys (items td)).
Proof.
  revert td. induction players as [|p players IH]; intros td; simpl.
  - tauto.
  - rewrite IH. unfold add_differential. rewrite dd_update_keys.
    intuition congruence.
Qed.

Lemma fold_differentials_factory players td :
  default_factory (fold_left add_differential players td) = default_factory td.
Proof.
  revert td. induction players as [|p players IH]; intros td; simpl; auto.
  rewrite IH. apply dd_update_factory.
Qed.

Lemma add_differential_total td (p : PlayerAnalysis.t Points) :
  default_factory td tt = 0 ->
  zsum (values (items (add_differential td p)))
  = zsum (values (items td)) + PlayerAnalysis.differential p.
Proof.
  intros Hf. unfold add_differential, dd_update, dd_getitem, dd_setitem.
  destruct (dict_get (PlayerAnalysis.team_name p) (items td)) as [v|] eqn:E;
    cbn [items default_factory].
  - rewrite zsum_values_dict_set. unfold counter_of. rewrite E. lia.
  - rewrite !zsum_values_dict_set. unfold counter_of.
    rewrite dict_get_set_eq, E, Hf. lia.
Qed.

(** The values of the returned mapping add up to the sum of all
    differentials. *)
Lemma fold_differentials_total players td :
  default_factory td tt = 0 ->
  zsum (values (items (fold_left add_differential players td)))
  = zsum (values (items td)) + zsum (map PlayerAnalysis.differential players).
Proof.
  revert td. induction players as [|p players IH]; intros td Hf; simpl.
  - unfold zsum. simpl. lia.
  - rewrite IH.
    + rewrite add_differential_total by assumption. unfold zsum. simpl. lia.
    + unfold add_differential. now rewrite dd_update_factory.
Qed.

End TeamDifferentials.

(** C6: for a team that occurs in the list, the value
    [get_team_differentials] stores for it is the sum of the differentials
    of that team's players, and of no others. *)
Theorem team_differential_is_sum_over_team
    (Points : Type) (players : list (PlayerAnalysis.t Points))
    (team : string) :
  In team (map PlayerAnalysis.team_name players) ->
  dict_get team (items (get_team_differentials players))
  = Some (zsum (map PlayerAnalysis.differential (on_team team players))).
Proof.
  intros Hin. rewrite get_team_differentials_fold.
  rewrite dict_get_dd_val.
  - rewrite fold_differentials_val. reflexivity.
  - apply fold_differentials_keys. now left.
Qed.

Lemma team_differential_is_sum_over_team_witness :
  dict_get "A" (items (get_team_differentials ex_players))
  = Some (zsum (map PlayerAnalysis.differential (on_team "A" ex_players))).
Proof.
  apply (team_differential_is_sum_over_team Z ex_players "A").
  solve_in.
Defined.

(** ** [get_players_by_team] *)

Lemma concat_map_nil {A B : Type} (ks : list A) :
  concat (map (fun _ => @nil B) ks) = [].
Proof. induction ks; simpl; auto. Qed.

Lemma Permutation_concat_map {A B : Type} (f g : A -> list B) ks :
  (forall k, In k ks -> Permutation (f k) (g k)) ->
  Permutation (concat (map f ks)) (concat (map g ks)).
Proof.
  induction ks as [|k ks IH]; intros H; simpl.
  - constructor.
  - apply Permutation_app.
    + apply H. now left.
    + apply IH. intros k' Hk'. apply H. now right.
Qed.

(** Adding [x] to the class of [t] adds it once to the concatenation of
    the classes of a duplicate-free key list that has [t]. *)
Lemma concat_classes_cons {B : Type} (f : string -> list B) (x : B) t ks :
  NoDup ks -> In t ks ->
  Permutation
    (concat (map (fun k => if String.eqb k t then x :: f k else f k) ks))
    (x :: concat (map f ks)).
Proof.
  induction ks as [|k ks IH]; intros Hnd Hin; [contradiction|].
  inversion Hnd as [|? ? Hnotin Hnd']; subst. simpl.
  destruct (String.eqb k t) eqn:E.
  - apply String.eqb_eq in E. subst k. simpl. constructor.
    apply Permutation_app_head.
    apply Permutation_concat_map. intros k Hk.
    destruct (String.eqb k t) eqn:E'; auto.
    apply String.eqb_eq in E'. subst k. contradiction.
  - apply String.eqb_neq in E. destruct Hin as [->|Hin]; [congruence|].
    rewrite (IH Hnd' Hin). symmetry. apply Permutation_middle.
Qed.

Section PlayersByTeam.
Context {Points : Type}.
Implicit Types (players : list (PlayerAnalysis.t Points))
  (teams : defaultdict (list (PlayerAnalysis.t Points))).

(** The classes of a duplicate-free key list that has every team are a
    rearrangement of the players. *)
Lemma concat_on_team players ks :
  NoDup ks ->
  (forall p, In p players -> In (PlayerAnalysis.team_name p) ks) ->
  Permutation (concat (map (fun k => on_team k players) ks)) players.
Proof.
  intros Hnd. induction players as [|p players IH]; intros Hall.
  - unfold on_team. simpl. rewrite concat_map_nil. constructor.
  - transitivity (p :: concat (map (fun k => on_team k players) ks)).
    + rewrite <- (concat_classes_cons (fun k => on_team k players) p
                    (PlayerAnalysis.team_name p) ks Hnd)
        by (apply Hall; now left).
      apply Permutation_concat_map. intros k _. unfold on_team. simpl.
      destruct (String.eqb k (PlayerAnalysis.team_name p)); reflexivity.
    + constructor. apply IH. intros q Hq. apply Hall. now right.
Qed.

Lemma fold_append_val players teams team :
  dd_val (fold_left append_player players teams) team
  = dd_val teams team ++ on_team team players.
Proof.
  revert teams. induction players as [|p players IH]; intros teams; simpl.
  - now rewrite app_nil_r.
  - rewrite IH. unfold append_player. rewrite dd_update_val. unfold on_team.
    destruct (String.eqb team (PlayerAnalysis.team_name p)) eqn:E.
    + apply String.eqb_eq in E. subst team. now rewrite <- app_assoc.
    + reflexivity.
Qed.

Lemma fold_append_keys players teams team :
  In team (keys (items (fold_left append_player players teams)))
  <-> In team (map PlayerAnalysis.team_name players) \/
      In team (keys (items teams)).
Proof.
  revert teams. induction players as [|p players IH]; intros teams; simpl.
  - tauto.
  - rewrite IH. unfold append_player. rewrite dd_update_keys.
    intuition congruence.
Qed.

Lemma fold_append_factory players teams :
  default_factory (fold_left append_player players teams)
  = default_factory teams.
Proof.
  revert teams. induction players as [|p players IH]; intros teams; simpl; auto.
  rewrite IH. apply dd_update_factory.
Qed.

Lemma fold_append_nodup players teams :
  NoDup (keys (items teams)) ->
  NoDup (keys (items (fold_left append_player players teams))).
Proof.
  revert teams. induction players as [|p players IH]; intros teams H; simpl; auto.
  apply IH. now apply dd_update_nodup.
Qed.

(** The sorting loop replaces the list of every key it visits by its sorted
    version and touches nothing else. *)
Lemma sort_teams_loop_spec ks teams :
  NoDup ks ->
  (forall k, In k ks -> In k (keys (items teams))) ->
  keys (items (sort_teams_loop ks teams)) = keys (items teams) /\
  default_factory (sort_teams_loop ks teams) = default_factory teams /\
  forall q,
    (In q ks ->
     dict_get q (items (sort_teams_loop ks teams))
     = option_map (sorted Z.ltb PlayerAnalysis.overall_pick false)
         (dict_get q (items teams))) /\
    (~ In q ks ->
     dict_get q (items (sort_teams_loop ks teams)) = dict_get q (items teams)).
Proof.
  intros Hnd. revert teams.
  induction Hnd as [|k ks Hnotin Hnd IH]; intros teams Hin.
  - simpl. repeat split; tauto.
  - destruct (dict_get_in_keys k (items teams) (Hin k (or_introl eq_refl)))
      as [l Hl].
    cbn [sort_teams_loop]. rewrite (dd_getitem_present _ _ _ Hl).
    set (teams' := dd_setitem k _ teams).
    assert (Hkeys : keys (items teams') = keys (items teams)).
    { unfold teams', dd_setitem. cbn [items].
      apply keys_dict_set_present. eapply dict_get_some_keys; eauto. }
    destruct (IH teams') as (IHk & IHf & IHq).
    { intros k' Hk'. rewrite Hkeys. apply Hin. now right. }
    split; [congruence|]. split; [exact IHf|].
    intros q. destruct (IHq q) as [IHin IHout]. split.
    + intros [<-|Hq].
      * rewrite IHout by assumption. unfold teams', dd_setitem. cbn [items].
        now rewrite dict_get_set_eq, Hl.
      * rewrite IHin by assumption. unfold teams', dd_setitem. cbn [items].
        rewrite dict_get_set_neq; [reflexivity|]. intros ->. contradiction.
    + intros Hq. rewrite IHout by (simpl in Hq; tauto).
      unfold teams', dd_setitem. cbn [items].
      apply dict_get_set_neq. intros ->. apply Hq. now left.
Qed.

Lemma get_players_by_team_fold players :
  get_players_by_team players
  = sort_teams_loop
      (keys (items (fold_left append_player players
                      (mk_defaultdict (fun _ => []) []))))
      (fold_left append_player players (mk_defaultdict (fun _ => []) [])).
Proof. reflexivity. Qed.

(** What [get_players_by_team] returns: one key per team that occurs, each
    holding that team's players, sorted. *)
Lemma get_players_by_team_spec players :
  NoDup (keys (items (get_players_by_team players))) /\
  default_factory (get_players_by_team players) tt = [] /\
  (forall team,
      In team (keys (items (get_players_by_team players)))
      <-> In team (map PlayerAnalysis.team_name players)) /\
  (forall team,
      In team (keys (items (get_players_by_team players))) ->
      dict_get team (items (get_players_by_team players))
      = Some (sorted Z.ltb PlayerAnalysis.overall_pick false
                (on_team team players))).
Proof.
  rewrite get_players_by_team_fold.
  set (dd0 := mk_defaultdict (fun _ => []) []).
  set (grouped := fold_left append_player players dd0).
  assert (Hnd : NoDup (keys (items grouped)))
    by (apply fold_append_nodup; constructor).
  destruct (sort_teams_loop_spec (keys (items grouped)) grouped Hnd)
    as (Hk & Hf & Hq); [auto|].
  rewrite Hk, Hf. split; [exact Hnd|]. split.
  { unfold grouped. now rewrite fold_append_factory. }
  split.
  - intros team. unfold grouped. rewrite fold_append_keys. simpl. tauto.
  - intros team Hin. destruct (Hq team) as [Hs _]. rewrite (Hs Hin).
    rewrite (dict_get_dd_val grouped team Hin). unfold grouped.
    rewrite fold_append_val. reflexivity.
Qed.

End PlayersByTeam.

Lemma values_of_keys {V : Type} (d : dict V) (g : string -> V) :
  NoDup (keys d) ->
  (forall k, In k (keys d) -> dict_get k d = Some (g k)) ->
  values d = map g (keys d).
Proof.
  induction d as [|[k v] d IH]; intros Hnd H; simpl; auto.
  inversion Hnd as [|? ? Hnotin Hnd']; subst.
  pose proof (H k (or_introl eq_refl)) as Hk. simpl in Hk.
  rewrite String.eqb_refl in Hk. injection Hk as ->.
  f_equal. apply IH; auto. intros k' Hk'.
  specialize (H k' (or_intror Hk')). simpl in H.
  destruct (String.eqb k' k) eqn:E; auto.
  apply String.eqb_eq in E. subst. contradiction.
Qed.

Lemma StronglySorted_impl {A : Type} (R R' : A -> A -> Prop) l :
  (forall a b, R a b -> R' a b) -> StronglySorted R l -> StronglySorted R' l.
Proof.
  intros HR. induction 1 as [|a l _ IH Hall]; constructor; auto.
  eapply Forall_impl; [|exact Hall]. auto.
Qed.

(** C5: [get_players_by_team] splits the input without loss or overlap.
    The returned mapping has each team once; its lists together are a
    rearrangement of the input, so every player occurs as often as in the
    input; a player is in the list keyed by its own team_name; the list of a
    team holds exactly the players of that team, sorted by overall_pick
    ascending. *)
Theorem players_by_team_is_sorted_partition
    (Points : Type) (players : list (PlayerAnalysis.t Points)) :
  NoDup (keys (items (get_players_by_team players))) /\
  Permutation (concat (values (items (get_players_by_team players)))) players /\
  (forall p, In p players ->
     exists l,
       dict_get (PlayerAnalysis.team_name p) (items (get_players_by_team players))
       = Some l /\ In p l) /\
  (forall team l,
     In (team, l) (items (get_players_by_team players)) ->
     Permutation l (on_team team players) /\
     StronglySorted by_overall_pick l).
Proof.
  destruct (get_players_by_team_spec players) as (Hnd & _ & Hkeys & Hget).
  set (sort := sorted Z.ltb (@PlayerAnalysis.overall_pick Points) false) in *.
  split; [exact Hnd|]. split; [|split].
  - rewrite (values_of_keys _ (fun k => sort (on_team k players)) Hnd Hget).
    transitivity
      (concat (map (fun k => on_team k players)
                 (keys (items (get_players_by_team players))))).
    + apply Permutation_concat_map. intros k _. apply sorted_perm.
    + apply concat_on_team; auto. intros p Hp. apply Hkeys.
      now apply in_map.
  - intros p Hp.
    assert (Hin : In (PlayerAnalysis.team_name p)
                    (keys (items (get_players_by_team players))))
      by (apply Hkeys; now apply in_map).
    eexists. split; [apply (Hget _ Hin)|].
    eapply Permutation_in; [symmetry; apply sorted_perm|].
    unfold on_team. apply filter_In. split; auto. apply String.eqb_refl.
  - intros team l Hin.
    assert (Hk : In team (keys (items (get_players_by_team players)))).
    { unfold keys. change team with (fst (team, l)). now apply in_map. }
    pose proof (dict_get_nodup _ _ _ Hnd Hin) as Hl.
    rewrite (Hget _ Hk) in Hl. injection Hl as <-. split.
    + apply sorted_perm.
    + eapply StronglySorted_impl;
        [|apply (sorted_asc_sorted Z.ltb PlayerAnalysis.overall_pick
                   Zltb_asym Zltb_negtrans)].
      intros a b. unfold not_before_asc, by_overall_pick.
      rewrite Z.ltb_ge. auto.
Qed.

(** C10: a team without players reads as 0 in the mapping
    [get_team_differentials] returns and as the empty list in the mapping
    [get_players_by_team] returns; the lookup [d[team]] of a defaultdict
    does not raise. *)
Theorem absent_team_reads_default
    (Points : Type) (players : list (PlayerAnalysis.t Points))
    (team : string) :
  ~ In team (map PlayerAnalysis.team_name players) ->
  fst (dd_getitem team (get_team_differentials players)) = 0 /\
  fst (dd_getitem team (get_players_by_team players)) = [].
Proof.
  intros Hnot. rewrite !dd_getitem_fst. split.
  - rewrite get_team_differentials_fold. unfold dd_val.
    destruct (dict_get team _) as [v|] eqn:E.
    + apply dict_get_some_keys, fold_differentials_keys in E.
      simpl in E. tauto.
    + now rewrite fold_differentials_factory.
  - destruct (get_players_by_team_spec players) as (_ & Hf & Hkeys & _).
    unfold dd_val. destruct (dict_get team _) as [v|] eqn:E.
    + apply dict_get_some_keys, Hkeys in E. contradiction.
    + exact Hf.
Qed.

Lemma absent_team_reads_default_witness :
  fst (dd_getitem "C" (get_team_differentials ex_players)) = 0 /\
  fst (dd_getitem "C" (get_players_by_team ex_players)) = [].
Proof.
  apply (absent_team_reads_default Z ex_players "C").
  simpl. intuition discriminate.
Defined.

(** ** The differentials of a whole draft cancel *)

Section Cancellation.
Context {Points : Type}.
Variable points_lt : Points -> Points -> bool.
Implicit Types (player_data : dict (YahooPlayerData.t Points))
  (draft_picks : list DraftPick.t) (out : list (PlayerAnalysis.t Points)).

(** A run that returns met only positions with a bucket. *)
Lemma season_point_ranks_ok_inv player_data ranks :
  _get_player_position_season_point_ranks points_lt player_data = Ok ranks ->
  positions_known player_data.
Proof.
  intros Heq. unfold positions_known.
  destruct (Forall_Exists_dec
              (fun pd : YahooPlayerData.t Points =>
                 In (YahooPlayerData.position pd) known_positions)
              (fun pd => in_dec string_dec _ _) (values player_data))
    as [H|H]; [exact H|].
  exfalso. unfold _get_player_position_season_point_ranks in Heq.
  destruct (season_point_ranks_loop_raise
              (sorted points_lt YahooPlayerData.season_points true
                 (values player_data))
              []
              [("QB", 1); ("RB", 1); ("WR", 1); ("TE", 1); ("K", 1); ("DEF", 1)])
    as (pos & _ & Hraise).
  - apply Exists_exists in H. destruct H as (pd & Hin & Hbad).
    apply Exists_exists. exists pd. split; [|exact Hbad].
    eapply Permutation_in; [symmetry; apply sorted_perm|exact Hin].
  - rewrite Hraise in Heq. discriminate.
Qed.

(** A draft loop that returns found every pick in both dictionaries. *)
Lemma player_analysis_loop_ok_inv player_data ranks draft_picks curr acc out :
  player_analysis_loop draft_picks player_data ranks curr acc = Ok out ->
  Forall (fun pick => In (DraftPick.id pick) (keys player_data) /\
                      In (DraftPick.id pick) (keys ranks)) draft_picks.
Proof.
  intros Heq.
  destruct (Forall_Exists_dec
              (fun pick => In (DraftPick.id pick) (keys player_data) /\
                           In (DraftPick.id pick) (keys ranks))
              (fun pick =>
                 match in_dec string_dec (DraftPick.id pick) (keys player_data),
                       in_dec string_dec (DraftPick.id pick) (keys ranks) with
                 | left a, left b => left (conj a b)
                 | right a, _ => right (fun H => a (proj1 H))
                 | _, right b => right (fun H => b (proj2 H))
                 end)
              draft_picks) as [H|H]; [exact H|].
  exfalso.
  destruct (player_analysis_loop_raise player_data ranks draft_picks curr acc)
    as (k & _ & Hraise).
  - eapply Exists_impl; [|exact H]. intros pick Hbad. cbv beta in Hbad.
    destruct (in_dec string_dec (DraftPick.id pick) (keys player_data));
      [right|left]; tauto.
  - rewrite Hraise in Heq. discriminate.
Qed.

Lemma zsum_differentials player_data draft_picks out :
  Forall2 (derived_from player_data) draft_picks out ->
  zsum (map PlayerAnalysis.differential out)
  = zsum (map PlayerAnalysis.draft_position_rank out)
    - zsum (map PlayerAnalysis.season_end_position_rank out).
Proof.
  unfold zsum.
  induction 1 as [|pick pa picks out Hd _ IH]; simpl; [reflexivity|].
  destruct Hd as (pd & _ & _ & _ & _ & _ & _ & _ & _ & Hdiff). lia.
Qed.

(** The positions of the drafted players, read through the mapping, are the
    positions of the mapping's records when the drafted ids are its keys. *)
Lemma positions_of_keys player_data :
  NoDup (keys player_data) ->
  map (fun k => match dict_get k player_data with
                | Some pd => YahooPlayerData.position pd
                | None => ""
                end) (keys player_data)
  = map YahooPlayerData.position (values player_data).
Proof.
  induction player_data as [|[k pd] d IH]; intros Hnd; simpl; auto.
  inversion Hnd as [|? ? Hnotin Hnd']; subst.
  rewrite String.eqb_refl. f_equal. rewrite <- IH by assumption.
  apply map_ext_in. intros k' Hk'.
  destruct (String.eqb k' k) eqn:E; auto.
  apply String.eqb_eq in E. subst. contradiction.
Qed.

End Cancellation.

(** C8: when the keys of the stats mapping are exactly the drafted ids and
    no id is drafted twice, the values [get_team_differentials] returns for
    the analysis of the draft add up to 0: per position the draft ranks and
    the season-end ranks are both 1, ..., k. *)
Theorem team_differentials_sum_to_zero
    (Points : Type) (points_lt : Points -> Points -> bool)
    (draft_picks : list DraftPick.t)
    (player_data : dict (YahooPlayerData.t Points))
    (out : list (PlayerAnalysis.t Points)) :
  NoDup (keys player_data) ->
  NoDup (map DraftPick.id draft_picks) ->
  (forall k, In k (keys player_data) <-> In k (map DraftPick.id draft_picks)) ->
  get_player_analysis points_lt draft_picks player_data = Ok out ->
  zsum (values (items (get_team_differentials out))) = 0.
Proof.
  intros Hkeys Hpicks Hsame Hrun.
  (* the two phases of the run *)
  unfold get_player_analysis in Hrun.
  destruct (_get_player_position_season_point_ranks points_lt player_data)
    as [ranks|e] eqn:Hranks; cbn [bind] in Hrun; [|discriminate].
  pose proof (season_point_ranks_ok_inv _ _ _ Hranks) as Hpos.
  pose proof (player_analysis_loop_ok_inv _ _ _ _ _ _ Hrun) as Hfound.
  destruct (player_analysis_loop_ok player_data ranks draft_picks
              (mk_defaultdict (fun _ => 1) []) [] Hfound)
    as (out' & Heq & Hall & Hdr).
  rewrite Hrun in Heq. injection Heq as ->. cbn [app] in *.
  assert (Hder : Forall2 (derived_from player_data) draft_picks out').
  { eapply Forall2_impl; [|exact Hall]. now intros pick pa [Hd _]. }
  (* the drafted ids are the ids of the records *)
  assert (Hperm_keys : Permutation (map DraftPick.id draft_picks)
                         (keys player_data)).
  { apply NoDup_Permutation; auto. intros k. symmetry. apply Hsame. }
  assert (Hperm_ids : Permutation (map DraftPick.id draft_picks)
                        (map YahooPlayerData.id (values player_data))).
  { apply NoDup_Permutation_bis; auto.
    - rewrite (Permutation_length Hperm_keys).
      unfold keys, values. rewrite !length_map. reflexivity.
    - intros k Hk. apply (season_point_ranks_keys points_lt _ ranks); auto.
      rewrite Forall_forall in Hfound.
      apply in_map_iff in Hk. destruct Hk as (pick & <- & Hin).
      now apply Hfound. }
  assert (Hids : NoDup (map YahooPlayerData.id (values player_data)))
    by (eapply Permutation_NoDup; eauto).
  destruct (season_point_ranks_lookup points_lt player_data Hpos Hids)
    as (ranks' & Hranks' & Hlook).
  rewrite Hranks in Hranks'. injection Hranks' as <-.
  pose proof (season_order_perm points_lt player_data) as Hsl.
  (* season-end ranks *)
  set (g := fun k => match dict_get k ranks with Some r => r | None => 0 end).
  assert (Hser : map PlayerAnalysis.season_end_position_rank out'
                 = map g (map DraftPick.id draft_picks)).
  { clear -Hall. induction Hall as [|pick pa picks out [_ Hg] _ IH]; simpl.
    - reflexivity.
    - f_equal; [|exact IH]. unfold g. now rewrite Hg. }
  assert (Hrs : season_rank_values points_lt player_data
                = map g (map YahooPlayerData.id
                           (season_order points_lt player_data))).
  { clear -Hlook. induction Hlook as [|pd r sl rs Hg _ IH]; simpl.
    - reflexivity.
    - f_equal; [|exact IH]. unfold g. now rewrite Hg. }
  assert (Hsum_ser : zsum (map PlayerAnalysis.season_end_position_rank out')
                     = zsum (season_rank_values points_lt player_data)).
  { rewrite Hser, Hrs. apply zsum_perm, Permutation_map.
    rewrite Hperm_ids. apply Permutation_map. now symmetry. }
  (* draft ranks *)
  assert (Hsum_dr : zsum (map PlayerAnalysis.draft_position_rank out')
                    = zsum (season_rank_values points_lt player_data)).
  { rewrite Hdr. unfold season_rank_values.
    rewrite (running_ranks_ext _ (fun _ => 1)) by reflexivity.
    apply zsum_running_ranks_perm.
    transitivity (map YahooPlayerData.position (values player_data)).
    - rewrite <- (positions_of_keys player_data Hkeys).
      assert (Hmap : map (position_or_empty player_data) draft_picks
                     = map (fun k => match dict_get k player_data with
                                     | Some pd => YahooPlayerData.position pd
                                     | None => ""
                                     end) (map DraftPick.id draft_picks)).
      { rewrite map_map. apply map_ext. intros pick.
        unfold position_or_empty, pick_position.
        destruct (dict_get (DraftPick.id pick) player_data); reflexivity. }
      rewrite Hmap. apply Permutation_map. exact Hperm_keys.
    - apply Permutation_map. now symmetry. }
  (* the totals *)
  rewrite get_team_differentials_fold, fold_differentials_total by reflexivity.
  rewrite (zsum_differentials _ _ _ Hder), Hsum_ser, Hsum_dr.
  unfold zsum. simpl. lia.
Qed.

Lemma team_differentials_sum_to_zero_witness :
  zsum (values (items (get_team_differentials ex_analysis))) = 0.
Proof.
  apply (team_differentials_sum_to_zero Z Z.ltb ex_draft ex_stats ex_analysis).
  - solve_nodup.
  - solve_nodup.
  - intros k. simpl. tauto.
  - reflexivity.
Defined.

(** ** JSON round trip *)

(** The part of the round trip that is [draft.py]'s own: [from_json_string]
    reads the members [to_json] writes, by the same names and into the same
    fields.  That [json.loads] reads back the document [json.dumps] wrote
    is the library's business and is assumed here. *)
Theorem from_json_string_to_json
    (Points Text : Type) (json_dumps : json Points -> Text)
    (json_loads : Text -> option (json Points))
    (p : YahooPlayerData.t Points) :
  json_loads (json_dumps (instance_dict p)) = Some (instance_dict p) ->
  from_json_string json_loads (to_json json_dumps p) = Some p.
Proof.
  intros Hlib. unfold from_json_string, to_json. rewrite Hlib.
  destruct p as [id position season_points]. reflexivity.
Qed.

Lemma from_json_string_to_json_witness :
  from_json_string Some
    (to_json (fun j => j) (YahooPlayerData.mk "1" "QB" 100))
  = Some (YahooPlayerData.mk "1" "QB" 100).
Proof.
  apply (from_json_string_to_json Z (json Z) (fun j => j) Some
           (YahooPlayerData.mk "1" "QB" 100)).
  reflexivity.
Defined.

(** * Further properties *)

(** ** Key order of a dictionary filled by assignments *)

Lemma keys_dict_set_unseen {V : Type} k (v : V) (d : dict V) :
  keys (dict_set k v d)
  = keys d ++ (if in_dec string_dec k (keys d) then [] else [k]).
Proof.
  destruct (in_dec string_dec k (keys d)) as [Hin|Hnin].
  - rewrite keys_dict_set_present by assumption. now rewrite app_nil_r.
  - now apply keys_dict_set_absent.
Qed.

Lemma in_unseen seen l x :
  In x (unseen seen l) <-> In x l /\ ~ In x seen.
Proof.
  revert seen. induction l as [|y l IH]; intros seen; simpl.
  - tauto.
  - destruct (in_dec string_dec y seen) as [Hin|Hnin].
    + rewrite IH. split; [tauto|]. intros [[->|H] Hx]; tauto.
    + simpl. rewrite IH, in_app_iff. simpl. split.
      * intros [->|[H Hx]]; tauto.
      * intros [[->|H] Hx]; auto.
        destruct (string_dec y x) as [->|Hne]; auto.
        right. split; auto. intros [H'|[H'|[]]]; auto.
Qed.

Lemma NoDup_unseen seen l : NoDup (unseen seen l).
Proof.
  revert seen. induction l as [|y l IH]; intros seen; simpl.
  - constructor.
  - destruct (in_dec string_dec y seen); auto.
    constructor; auto. rewrite in_unseen, in_app_iff. simpl. tauto.
Qed.

Lemma Forall_dict_set {V : Type} (P : string * V -> Prop) k v (d : dict V) :
  Forall P d -> P (k, v) -> Forall P (dict_set k v d).
Proof.
  intros Hd Hkv. induction Hd as [|[k' v'] d Hk' Hd IH]; simpl.
  - now constructor.
  - destruct (String.eqb k k') eqn:E.
    + apply String.eqb_eq in E. subst k'. now constructor.
    + now constructor.
Qed.

Lemma keyed_by_id_distinct {Points : Type}
    (player_data : dict (YahooPlayerData.t Points)) :
  keyed_by_id player_data -> NoDup (keys player_data) ->
  distinct_ids player_data.
Proof.
  unfold keyed_by_id, distinct_ids, values, keys. intros Hk Hnd.
  replace (map YahooPlayerData.id (map snd player_data))
    with (map fst player_data); auto.
  clear Hnd. induction Hk as [|kv d Hkv _ IH]; simpl; auto.
  now rewrite IH, Hkv.
Qed.

(** ** [_fetch_yahoo_player_data] *)

Section FetchFacts.
Context {Points World : Type}.
Variable query : string -> World -> option (Player.t Points) * World.
Implicit Types (player_data data : dict (YahooPlayerData.t Points))
  (draft_picks : list DraftPick.t) (world : World).

Lemma fetch_loop_spec draft_picks player_data world data world' :
  fetch_loop query draft_picks player_data world = (Some data, world') ->
  keys data
  = keys player_data
    ++ unseen (keys player_data) (map DraftPick.id draft_picks) /\
  (NoDup (keys player_data) -> NoDup (keys data)) /\
  (keyed_by_id player_data -> keyed_by_id data).
Proof.
  revert player_data world.
  induction draft_picks as [|pick picks IH]; intros d w Heq.
  - cbn in Heq. injection Heq as <- <-. cbn. rewrite app_nil_r. tauto.
  - cbn [fetch_loop] in Heq.
    destruct (query (DraftPick.id pick) w) as [[response|] w1];
      [|discriminate].
    destruct (IH _ _ Heq) as (Hkeys & Hnd & Hkeyed).
    rewrite keys_dict_set_unseen in Hkeys. split; [|split].
    + rewrite Hkeys. cbn [map unseen].
      destruct (in_dec string_dec (DraftPick.id pick) (keys d)).
      * now rewrite app_nil_r.
      * now rewrite <- app_assoc.
    + intros H. apply Hnd. now apply NoDup_keys_dict_set.
    + intros H. apply Hkeyed. now apply Forall_dict_set.
Qed.

Lemma fetch_loop_app picks1 picks2 player_data world :
  fetch_loop query (picks1 ++ picks2) player_data world
  = match fetch_loop query picks1 player_data world with
    | (Some data, world') => fetch_loop query picks2 data world'
    | (None, world') => (None, world')
    end.
Proof.
  revert player_data world.
  induction picks1 as [|pick picks1 IH]; intros d w; cbn [app fetch_loop].
  - reflexivity.
  - destruct (query (DraftPick.id pick) w) as [[response|] w1]; auto.
Qed.

End FetchFacts.

(** X1: a fetch that returns has built a mapping fit for the analyzer: no
    key twice, every record stored under its own id, one record per player
    id, and every drafted id covered. *)
Theorem fetched_data_covers_the_draft
    (Points World : Type)
    (get_player_stats_for_season :
       string -> World -> option (Player.t Points) * World)
    (draft_picks : list DraftPick.t) (world world' : World)
    (data : dict (YahooPlayerData.t Points)) :
  _fetch_yahoo_player_data get_player_stats_for_season draft_picks world
  = (Some data, world') ->
  NoDup (keys data) /\
  keyed_by_id data /\
  distinct_ids data /\
  covers data draft_picks.
Proof.
  intros Heq. destruct (fetch_loop_spec _ _ _ _ _ _ Heq) as (Hkeys & Hnd & Hk).
  specialize (Hnd (NoDup_nil _)). specialize (Hk (Forall_nil _)).
  split; [exact Hnd|]. split; [exact Hk|].
  split; [now apply keyed_by_id_distinct|].
  apply Forall_forall. intros pick Hin.
  assert (Hkey : In (DraftPick.id pick) (keys data)).
  { rewrite Hkeys. cbn. apply in_unseen. split; [|tauto]. now apply in_map. }
  destruct (dict_get_in_keys _ _ Hkey) as [pd Hpd].
  exists pd. split; [exact Hpd|].
  apply dict_get_some_in in Hpd. unfold keyed_by_id in Hk.
  rewrite Forall_forall in Hk. symmetry. exact (Hk _ Hpd).
Qed.

Lemma fetched_data_covers_the_draft_witness :
  NoDup (keys ex_stats) /\
  keyed_by_id ex_stats /\
  distinct_ids ex_stats /\
  covers ex_stats ex_draft.
Proof.
  apply (fetched_data_covers_the_draft Z nat ex_service ex_draft 0%nat 2%nat).
  reflexivity.
Defined.

(** X2: the fetched mapping has one key per distinct drafted id, in the
    order the ids are first drafted. *)
Theorem fetched_keys_are_first_occurrences
    (Points World : Type)
    (get_player_stats_for_season :
       string -> World -> option (Player.t Points) * World)
    (draft_picks : list DraftPick.t) (world world' : World)
    (data : dict (YahooPlayerData.t Points)) :
  _fetch_yahoo_player_data get_player_stats_for_season draft_picks world
  = (Some data, world') ->
  keys data = first_occurrences (map DraftPick.id draft_picks).
Proof.
  intros Heq. now destruct (fetch_loop_spec _ _ _ _ _ _ Heq) as (Hkeys & _).
Qed.

Lemma fetched_keys_are_first_occurrences_witness :
  keys ex_stats = first_occurrences (map DraftPick.id (ex_draft ++ ex_draft)).
Proof.
  apply (fetched_keys_are_first_occurrences Z nat ex_service
           (ex_draft ++ ex_draft) 0%nat 4%nat).
  reflexivity.
Defined.

(** X3: the first call that raises ends the fetch: no mapping is returned,
    not even a partial one, and no further call is made (the world is left
    as that call left it). *)
Theorem fetch_stops_at_first_failure
    (Points World : Type)
    (get_player_stats_for_season :
       string -> World -> option (Player.t Points) * World)
    (before_picks after_picks : list DraftPick.t) (pick : DraftPick.t)
    (world world1 world2 : World)
    (data : dict (YahooPlayerData.t Points)) :
  _fetch_yahoo_player_data get_player_stats_for_season before_picks world
  = (Some data, world1) ->
  get_player_stats_for_season (DraftPick.id pick) world1 = (None, world2) ->
  _fetch_yahoo_player_data get_player_stats_for_season
    (before_picks ++ pick :: after_picks) world
  = (None, world2).
Proof.
  unfold _fetch_yahoo_player_data. intros H1 H2.
  rewrite fetch_loop_app, H1. cbn [fetch_loop]. now rewrite H2.
Qed.

Lemma fetch_stops_at_first_failure_witness :
  _fetch_yahoo_player_data ex_service (ex_draft ++ lb_draft ++ ex_draft) 0%nat
  = (None, 3%nat).
Proof.
  apply (fetch_stops_at_first_failure Z nat ex_service ex_draft ex_draft
           (DraftPick.mk "7" "B" "Lee" "Backer" 1) 0%nat 2%nat 3%nat ex_stats).
  - reflexivity.
  - reflexivity.
Defined.

(** ** The cache: [_write_yahoo_data] and [read_yahoo_data] *)

Lemma dict_set_absent {V : Type} k (v : V) (d : dict V) :
  ~ In k (keys d) -> dict_set k v d = d ++ [(k, v)].
Proof.
  induction d as [|[k' v'] d IH]; simpl; auto.
  intros Hnin. destruct (String.eqb k k') eqn:E.
  - apply String.eqb_eq in E. subst. tauto.
  - f_equal. apply IH. tauto.
Qed.

Lemma set_all_fresh {V : Type} (d acc : dict V) :
  NoDup (keys d) ->
  (forall k, In k (keys d) -> ~ In k (keys acc)) ->
  set_all d acc = acc ++ d.
Proof.
  unfold set_all. revert acc.
  induction d as [|[k v] d IH]; intros acc Hnd Hfresh; simpl.
  - now rewrite app_nil_r.
  - inversion Hnd as [|? ? Hnotin Hnd']; subst.
    rewrite dict_set_absent by (apply Hfresh; now left).
    rewrite IH; auto.
    + now rewrite <- app_assoc.
    + intros k' Hk'. unfold keys. rewrite map_app, in_app_iff. simpl.
      intros [H|[<-|[]]]; [|contradiction].
      apply (Hfresh k'); [now right|exact H].
Qed.

Section CacheFacts.
Context {Points Text : Type}.
Variable json_dumps : json Points -> Text.
Variable json_loads : Text -> option (json Points).
Implicit Types (data acc : dict (YahooPlayerData.t Points)).

Lemma read_written_loop data acc :
  json_round_trips json_dumps json_loads data ->
  read_yahoo_data_loop json_loads (_write_yahoo_data json_dumps data) acc
  = Some (set_all data acc).
Proof.
  unfold json_round_trips, values. revert acc.
  induction data as [|[k pd] data IH]; intros acc Hrt; simpl.
  - reflexivity.
  - inversion Hrt as [|? ? Hpd Hrest]; subst. simpl in Hpd.
    unfold from_json_string, to_json. rewrite Hpd.
    destruct pd as [id position season_points]. cbn.
    now rewrite IH.
Qed.

End CacheFacts.

(** X4: reading back what [_write_yahoo_data] wrote returns the mapping that
    was written, keys and order included, provided the JSON library reads
    back the document it wrote for each record. *)
Theorem read_yahoo_data_of_written
    (Points Text : Type) (json_dumps : json Points -> Text)
    (json_loads : Text -> option (json Points))
    (data : dict (YahooPlayerData.t Points)) :
  NoDup (keys data) ->
  json_round_trips json_dumps json_loads data ->
  read_yahoo_data json_loads (_write_yahoo_data json_dumps data) = Some data.
Proof.
  intros Hnd Hrt. unfold read_yahoo_data.
  rewrite read_written_loop by assumption.
  rewrite set_all_fresh; auto.
Qed.

Lemma read_yahoo_data_of_written_witness :
  read_yahoo_data Some (_write_yahoo_data (fun j => j) ex_stats)
  = Some ex_stats.
Proof.
  apply (read_yahoo_data_of_written Z (json Z) (fun j => j) Some ex_stats).
  - solve_nodup.
  - solve_forall reflexivity.
Defined.

(** X5: the first run end to end.  When the fetch returns, the JSON library
    reads back what it wrote and every fetched position has a bucket, the
    cache read returns the fetched mapping and [get_player_analysis] on it
    returns one analysis per pick. *)
Theorem first_run_analyzes_every_pick
    (Points Text World : Type) (points_lt : Points -> Points -> bool)
    (json_dumps : json Points -> Text)
    (json_loads : Text -> option (json Points))
    (get_player_stats_for_season :
       string -> World -> option (Player.t Points) * World)
    (draft_picks : list DraftPick.t) (world world' : World)
    (data : dict (YahooPlayerData.t Points)) :
  _fetch_yahoo_player_data get_player_stats_for_season draft_picks world
  = (Some data, world') ->
  json_round_trips json_dumps json_loads data ->
  positions_known data ->
  read_yahoo_data json_loads (_write_yahoo_data json_dumps data) = Some data /\
  exists players,
    get_player_analysis points_lt draft_picks data = Ok players /\
    length players = length draft_picks.
Proof.
  intros Hfetch Hrt Hpos.
  destruct (fetch_loop_spec _ _ _ _ _ _ Hfetch) as (Hkeys & Hnd & Hk).
  specialize (Hnd (NoDup_nil _)). specialize (Hk (Forall_nil _)).
  assert (Hcov : covers data draft_picks).
  { apply Forall_forall. intros pick Hin.
    assert (Hkey : In (DraftPick.id pick) (keys data)).
    { rewrite Hkeys. cbn. apply in_unseen. split; [|tauto]. now apply in_map. }
    destruct (dict_get_in_keys _ _ Hkey) as [pd Hpd].
    exists pd. split; [exact Hpd|].
    apply dict_get_some_in in Hpd. unfold keyed_by_id in Hk.
    rewrite Forall_forall in Hk. symmetry. exact (Hk _ Hpd). }
  destruct (get_player_analysis_ok points_lt draft_picks data Hpos Hcov)
    as (ranks & out & _ & Heq & Hall & _).
  split.
  - unfold read_yahoo_data. rewrite read_written_loop by assumption.
    rewrite set_all_fresh; auto.
  - exists out. split; [exact Heq|].
    symmetry. eapply Forall2_length; eauto.
Qed.

Lemma first_run_analyzes_every_pick_witness :
  read_yahoo_data Some (_write_yahoo_data (fun j => j) ex_stats)
  = Some ex_stats /\
  exists players,
    get_player_analysis Z.ltb ex_draft ex_stats = Ok players /\
    length players = length ex_draft.
Proof.
  apply (first_run_analyzes_every_pick Z (json Z) nat Z.ltb (fun j => j) Some
           ex_service ex_draft 0%nat 2%nat ex_stats).
  - reflexivity.
  - solve_forall reflexivity.
  - solve_forall solve_in.
Defined.

(** ** Stability of the descending sort *)

Section BeforeFacts.
Context {A : Type}.
Implicit Types (l : list A) (a b x y : A).

Lemma before_cons l a b y : before l a b -> before (y :: l) a b.
Proof.
  intros (l1 & l2 & -> & Hb). exists (y :: l1), l2. split; auto.
Qed.

Lemma before_head l a b : In b l -> before (a :: l) a b.
Proof. intros Hb. exists [], l. split; auto. Qed.

Lemma before_cons_inv l a b y :
  before (y :: l) a b -> (y = a /\ In b l) \/ before l a b.
Proof.
  intros (l1 & l2 & Heq & Hb). destruct l1 as [|z l1]; simpl in Heq.
  - injection Heq as -> ->. now left.
  - injection Heq as -> ->. right. now exists l1, l2.
Qed.

Lemma before_nth_error l a b :
  before l a b ->
  exists i j, (i < j)%nat /\ nth_error l i = Some a /\ nth_error l j = Some b.
Proof.
  intros (l1 & l2 & -> & Hb).
  destruct (In_nth_error _ _ Hb) as [n Hn].
  exists (length l1), (length l1 + S n)%nat. split; [lia|]. split.
  - rewrite nth_error_app2 by lia. now rewrite Nat.sub_diag.
  - rewrite nth_error_app2 by lia.
    replace (length l1 + S n - length l1)%nat with (S n) by lia.
    exact Hn.
Qed.

Lemma nth_error_before l i j a b :
  (i < j)%nat -> nth_error l i = Some a -> nth_error l j = Some b ->
  before l a b.
Proof.
  revert i j. induction l as [|y l IH]; intros i j Hij Hi Hj.
  - destruct i; discriminate.
  - destruct j as [|j]; [lia|]. simpl in Hj. destruct i as [|i]; simpl in Hi.
    + injection Hi as ->. apply before_head. eapply nth_error_In; eauto.
    + apply before_cons. apply (IH i j); auto. lia.
Qed.

End BeforeFacts.

Section StabilityFacts.
Context {A K : Type}.
Variable lt : K -> K -> bool.
Variable key : A -> K.

Lemma insert_desc_before_old x l a b :
  before l a b -> before (insert_desc lt key x l) a b.
Proof.
  induction l as [|y l IH]; intros H.
  - destruct H as (l1 & l2 & Heq & _). destruct l1; discriminate.
  - simpl. destruct (lt (key x) (key y)).
    + destruct (before_cons_inv _ _ _ _ H) as [[-> Hb]|H'].
      * apply before_head.
        eapply Permutation_in; [symmetry; apply insert_desc_perm|].
        now right.
      * apply before_cons. now apply IH.
    + now apply before_cons.
Qed.

Lemma insert_desc_before_new x l y :
  In y l -> lt (key x) (key y) = false ->
  before (insert_desc lt key x l) x y.
Proof.
  induction l as [|z l IH]; intros Hin Hxy; [contradiction|].
  simpl. destruct (lt (key x) (key z)) eqn:E.
  - destruct Hin as [->|Hin]; [congruence|].
    apply before_cons. now apply IH.
  - now apply before_head.
Qed.

(** Elements keep their input order unless the later one has a strictly
    greater key. *)
Lemma sorted_desc_stable l a b :
  before l a b -> lt (key a) (key b) = false ->
  before (sorted lt key true l) a b.
Proof.
  unfold sorted. induction l as [|y l IH]; intros H Hab.
  - destruct H as (l1 & l2 & Heq & _). destruct l1; discriminate.
  - simpl. destruct (before_cons_inv _ _ _ _ H) as [[-> Hb]|H'].
    + apply insert_desc_before_new; auto.
      eapply Permutation_in; [symmetry; apply (sorted_perm lt key true)|].
      exact Hb.
    + apply insert_desc_before_old. now apply IH.
Qed.

End StabilityFacts.

(** X6: on a stats mapping with one record per player id whose positions
    all have a bucket, and with [<] a strict weak order on season_points
    (no NaN), ties in [season_points] are broken by the order of the
    mapping: of two records of one position, the one that comes first in
    the mapping gets the strictly smaller rank unless the later one has
    strictly more points. *)
Theorem season_end_rank_ties_follow_mapping_order
    (Points : Type) (points_lt : Points -> Points -> bool)
    (lt_asym : forall x y, points_lt x y = true -> points_lt y x = false)
    (lt_negtrans : forall x y z,
        points_lt x y = false -> points_lt y z = false -> points_lt x z = false)
    (player_data : dict (YahooPlayerData.t Points))
    (a b : YahooPlayerData.t Points) :
  distinct_ids player_data ->
  positions_known player_data ->
  before (values player_data) a b ->
  YahooPlayerData.position a = YahooPlayerData.position b ->
  points_lt (YahooPlayerData.season_points a)
    (YahooPlayerData.season_points b) = false ->
  exists ranks ra rb,
    _get_player_position_season_point_ranks points_lt player_data = Ok ranks /\
    dict_get (YahooPlayerData.id a) ranks = Some ra /\
    dict_get (YahooPlayerData.id b) ranks = Some rb /\
    ra < rb.
Proof.
  intros Hids Hpos Hbefore Hab Hlt.
  destruct (season_point_ranks_lookup points_lt player_data Hpos Hids)
    as (ranks & Hranks & Hlook).
  pose proof (sorted_desc_stable points_lt YahooPlayerData.season_points
                _ _ _ Hbefore Hlt) as Hsorted.
  fold (season_order points_lt player_data) in Hsorted.
  destruct (before_nth_error _ _ _ Hsorted) as (i & j & Hij & Hi & Hj).
  destruct (Forall2_nth_error _ _ _ _ _ Hlook Hi) as (ra & Hra & Hga).
  destruct (Forall2_nth_error _ _ _ _ _ Hlook Hj) as (rb & Hrb & Hgb).
  exists ranks, ra, rb. repeat (split; [assumption|]).
  unfold season_rank_values in Hra, Hrb.
  rewrite (running_ranks_nth _ _ i (YahooPlayerData.position a)) in Hra
    by (rewrite nth_error_map, Hi; reflexivity).
  rewrite (running_ranks_nth _ _ j (YahooPlayerData.position b)) in Hrb
    by (rewrite nth_error_map, Hj; reflexivity).
  apply Some_eq_inv in Hra, Hrb. subst ra rb. rewrite <- Hab.
  assert (j <= length (map YahooPlayerData.position
                         (season_order points_lt player_data)))%nat.
  { rewrite length_map. apply Nat.lt_le_incl.
    apply nth_error_Some. congruence. }
  pose proof (count_pos_firstn_lt (YahooPlayerData.position a)
                (map YahooPlayerData.position
                   (season_order points_lt player_data)) i j Hij
                ltac:(rewrite nth_error_map, Hi; reflexivity)
                ltac:(assumption)).
  lia.
Qed.

Lemma season_end_rank_ties_follow_mapping_order_witness :
  exists ranks ra rb,
    _get_player_position_season_point_ranks Z.ltb tie_stats = Ok ranks /\
    dict_get "1" ranks = Some ra /\
    dict_get "2" ranks = Some rb /\
    ra < rb.
Proof.
  apply (season_end_rank_ties_follow_mapping_order Z Z.ltb Zltb_asym
           Zltb_negtrans tie_stats
           (YahooPlayerData.mk "1" "QB" 250) (YahooPlayerData.mk "2" "QB" 250)).
  - unfold distinct_ids. simpl. solve_nodup.
  - solve_forall solve_in.
  - exists [], [YahooPlayerData.mk "2" "QB" 250; YahooPlayerData.mk "3" "K" 90].
    split; [reflexivity|solve_in].
  - reflexivity.
  - reflexivity.
Defined.

(** ** When the analyzer returns *)

(** X7: [_get_player_position_season_point_ranks] returns exactly when every
    record has one of the six positions, and the dictionary it returns has
    exactly the record ids as keys. *)
Theorem season_point_ranks_returns_iff
    (Points : Type) (points_lt : Points -> Points -> bool)
    (player_data : dict (YahooPlayerData.t Points)) :
  ((exists ranks,
       _get_player_position_season_point_ranks points_lt player_data
       = Ok ranks)
   <-> positions_known player_data) /\
  (forall ranks,
      _get_player_position_season_point_ranks points_lt player_data
      = Ok ranks ->
      forall k,
        In k (keys ranks)
        <-> In k (map YahooPlayerData.id (values player_data))).
Proof.
  split.
  - split.
    + intros [ranks Heq]. eapply season_point_ranks_ok_inv; eauto.
    + intros Hpos. eexists. now apply season_point_ranks_ok.
  - intros ranks Heq k. split.
    + eapply season_point_ranks_keys; eauto.
    + eapply season_point_ranks_keys_known; eauto.
      eapply season_point_ranks_ok_inv; eauto.
Qed.

(** X8: [get_player_analysis] returns exactly when every record of the stats
    mapping has one of the six positions and every drafted id is both a key
    of the mapping and the id of one of its records; in every other case it
    raises. *)
Theorem get_player_analysis_returns_iff
    (Points : Type) (points_lt : Points -> Points -> bool)
    (draft_picks : list DraftPick.t)
    (player_data : dict (YahooPlayerData.t Points)) :
  (exists out, get_player_analysis points_lt draft_picks player_data = Ok out)
  <-> positions_known player_data /\
      Forall
        (fun pick =>
           In (DraftPick.id pick) (keys player_data) /\
           In (DraftPick.id pick)
             (map YahooPlayerData.id (values player_data)))
        draft_picks.
Proof.
  split.
  - intros [out Hrun]. unfold get_player_analysis in Hrun.
    destruct (_get_player_position_season_point_ranks points_lt player_data)
      as [ranks|e] eqn:Hranks; cbn [bind] in Hrun; [|discriminate].
    pose proof (season_point_ranks_ok_inv _ _ _ Hranks) as Hpos.
    split; [exact Hpos|].
    eapply Forall_impl; [|eapply player_analysis_loop_ok_inv; eauto].
    intros pick [H1 H2]. split; auto.
    eapply season_point_ranks_keys; eauto.
  - intros [Hpos Hall].
    pose proof (season_point_ranks_ok points_lt player_data Hpos) as Hranks.
    set (ranks := set_all _ _) in Hranks.
    destruct (player_analysis_loop_ok player_data ranks draft_picks
                (mk_defaultdict (fun _ => 1) []) [])
      as (out & Heq & _).
    { eapply Forall_impl; [|exact Hall]. intros pick [H1 H2]. split; auto.
      eapply season_point_ranks_keys_known; eauto. }
    exists out. unfold get_player_analysis. rewrite Hranks. exact Heq.
Qed.

(** X9: the season_end_position_rank of every analysis is the rank
    [_get_player_position_season_point_ranks] stores for the pick's id: it
    depends on the stats mapping only, not on the draft. *)
Theorem season_end_rank_is_the_stored_rank
    (Points : Type) (points_lt : Points -> Points -> bool)
    (draft_picks : list DraftPick.t)
    (player_data : dict (YahooPlayerData.t Points))
    (out : list (PlayerAnalysis.t Points)) :
  get_player_analysis points_lt draft_picks player_data = Ok out ->
  exists ranks,
    _get_player_position_season_point_ranks points_lt player_data = Ok ranks /\
    Forall2
      (fun pick pa =>
         dict_get (DraftPick.id pick) ranks
         = Some (PlayerAnalysis.season_end_position_rank pa))
      draft_picks out.
Proof.
  intros Hrun. unfold get_player_analysis in Hrun.
  destruct (_get_player_position_season_point_ranks points_lt player_data)
    as [ranks|e] eqn:Hranks; cbn [bind] in Hrun; [|discriminate].
  exists ranks. split; [reflexivity|].
  pose proof (player_analysis_loop_ok_inv _ _ _ _ _ _ Hrun) as Hfound.
  destruct (player_analysis_loop_ok player_data ranks draft_picks
              (mk_defaultdict (fun _ => 1) []) [] Hfound)
    as (out' & Heq & Hall & _).
  rewrite Hrun in Heq. injection Heq as ->.
  eapply Forall2_impl; [|exact Hall]. now intros pick pa [_ H].
Qed.

Lemma season_end_rank_is_the_stored_rank_witness :
  exists ranks,
    _get_player_position_season_point_ranks Z.ltb ex_stats = Ok ranks /\
    Forall2
      (fun pick pa =>
         dict_get (DraftPick.id pick) ranks
         = Some (PlayerAnalysis.season_end_position_rank pa))
      ex_draft ex_analysis.
Proof.
  apply (season_end_rank_is_the_stored_rank Z Z.ltb ex_draft ex_stats
           ex_analysis).
  reflexivity.
Defined.

(** ** The two aggregations together *)

Lemma dd_update_keys_unseen {V : Type} k (f : V -> V) (d : defaultdict V) :
  keys (items (dd_update k f d))
  = keys (items d) ++ (if in_dec string_dec k (keys (items d)) then [] else [k]).
Proof.
  unfold dd_update, dd_getitem, dd_setitem.
  destruct (dict_get k (items d)) as [v|] eqn:E; cbn [items].
  - rewrite keys_dict_set_unseen. reflexivity.
  - apply dict_get_none_iff in E.
    rewrite keys_dict_set_present by (apply in_keys_dict_set; now left).
    rewrite keys_dict_set_unseen. reflexivity.
Qed.

Lemma fold_keys_unseen {V P : Type}
    (step : defaultdict V -> P -> defaultdict V) (name : P -> string) :
  (forall d p,
      keys (items (step d p))
      = keys (items d)
        ++ (if in_dec string_dec (name p) (keys (items d)) then [] else [name p])) ->
  forall ps d,
    keys (items (fold_left step ps d))
    = keys (items d) ++ unseen (keys (items d)) (map name ps).
Proof.
  intros Hstep. induction ps as [|p ps IH]; intros d; simpl.
  - now rewrite app_nil_r.
  - rewrite IH, Hstep.
    destruct (in_dec string_dec (name p) (keys (items d))).
    + now rewrite app_nil_r.
    + now rewrite <- app_assoc.
Qed.

Lemma sorted_asc_of_sorted {A K : Type} (lt : K -> K -> bool) (key : A -> K) l :
  StronglySorted (not_before_asc lt key) l -> sorted lt key false l = l.
Proof.
  unfold sorted. induction 1 as [|x l _ IH Hall]; simpl; auto.
  rewrite IH. destruct l as [|y l]; simpl; auto.
  inversion Hall as [|? ? Hxy _]; subst. unfold not_before_asc in Hxy.
  now rewrite Hxy.
Qed.

Lemma StronglySorted_filter {A : Type} (R : A -> A -> Prop) (f : A -> bool) l :
  StronglySorted R l -> StronglySorted R (filter f l).
Proof.
  induction 1 as [|x l _ IH Hall]; simpl; [constructor|].
  destruct (f x); auto. constructor; auto.
  rewrite Forall_forall in *. intros y Hy. apply Hall.
  apply filter_In in Hy. tauto.
Qed.

(** X10: for every list of analyses, the values [get_team_differentials]
    returns add up to the sum of all differentials: no player is dropped or
    counted twice. *)
Theorem team_differentials_total
    (Points : Type) (players : list (PlayerAnalysis.t Points)) :
  zsum (values (items (get_team_differentials players)))
  = zsum (map PlayerAnalysis.differential players).
Proof.
  rewrite get_team_differentials_fold, fold_differentials_total by reflexivity.
  unfold zsum. simpl. lia.
Qed.

(** X11: the two aggregations agree: the differential stored for a team is
    the sum of the differentials of the players [get_players_by_team] lists
    for that team. *)
Theorem team_differential_matches_team_list
    (Points : Type) (players : list (PlayerAnalysis.t Points))
    (team : string) (l : list (PlayerAnalysis.t Points)) :
  dict_get team (items (get_players_by_team players)) = Some l ->
  dict_get team (items (get_team_differentials players))
  = Some (zsum (map PlayerAnalysis.differential l)).
Proof.
  intros Hl.
  destruct (get_players_by_team_spec players) as (_ & _ & Hkeys & Hget).
  pose proof (dict_get_some_keys _ _ _ Hl) as Hin.
  rewrite (Hget _ Hin) in Hl. injection Hl as <-.
  apply Hkeys in Hin.
  rewrite get_team_differentials_fold, dict_get_dd_val
    by (apply fold_differentials_keys; now left).
  rewrite fold_differentials_val. f_equal. cbn.
  apply zsum_perm, Permutation_map. symmetry. apply sorted_perm.
Qed.

Lemma team_differential_matches_team_list_witness :
  dict_get "A" (items (get_team_differentials ex_players))
  = Some
      (zsum
         (map PlayerAnalysis.differential
            [PlayerAnalysis.mk "1" "A" "Ann" "One" "QB" 1 100 1 2 (-1);
             PlayerAnalysis.mk "3" "A" "Cy" "Three" "RB" 5 80 2 1 1])).
Proof.
  apply (team_differential_matches_team_list Z ex_players "A").
  reflexivity.
Defined.

(** X12: both aggregations list the teams in the order in which they first
    occur among the players, each team once. *)
Theorem teams_are_listed_in_order_of_first_occurrence
    (Points : Type) (players : list (PlayerAnalysis.t Points)) :
  keys (items (get_players_by_team players))
  = first_occurrences (map PlayerAnalysis.team_name players) /\
  keys (items (get_team_differentials players))
  = first_occurrences (map PlayerAnalysis.team_name players).
Proof.
  split.
  - rewrite get_players_by_team_fold.
    set (grouped := fold_left append_player players _).
    assert (Hnd : NoDup (keys (items grouped)))
      by (apply fold_append_nodup; constructor).
    destruct (sort_teams_loop_spec (keys (items grouped)) grouped Hnd)
      as (Hk & _); [auto|].
    rewrite Hk. unfold grouped.
    rewrite (fold_keys_unseen append_player PlayerAnalysis.team_name).
    + reflexivity.
    + intros d p. apply dd_update_keys_unseen.
  - rewrite get_team_differentials_fold.
    rewrite (fold_keys_unseen add_differential PlayerAnalysis.team_name).
    + reflexivity.
    + intros d p. apply dd_update_keys_unseen.
Qed.

(** X13: when the players come in non-decreasing overall_pick order, as the
    analysis of a draft file in pick order does, the list of a team is
    exactly that team's players in input order: the sort moves nothing. *)
Theorem team_list_of_players_in_pick_order
    (Points : Type) (players : list (PlayerAnalysis.t Points))
    (team : string) :
  StronglySorted by_overall_pick players ->
  In team (map PlayerAnalysis.team_name players) ->
  dict_get team (items (get_players_by_team players))
  = Some (on_team team players).
Proof.
  intros Hsorted Hin.
  destruct (get_players_by_team_spec players) as (_ & _ & Hkeys & Hget).
  rewrite (Hget team) by now apply Hkeys.
  f_equal. apply sorted_asc_of_sorted. apply StronglySorted_filter.
  eapply StronglySorted_impl; [|exact Hsorted].
  intros a b. unfold not_before_asc, by_overall_pick. now rewrite Z.ltb_ge.
Qed.

Lemma team_list_of_players_in_pick_order_witness :
  dict_get "A" (items (get_players_by_team ex_analysis))
  = Some (on_team "A" ex_analysis).
Proof.
  apply (team_list_of_players_in_pick_order Z ex_analysis "A").
  - repeat constructor; unfold by_overall_pick; simpl; lia.
  - solve_in.
Defined.

(** ** A closed form for the season-end rank *)

Lemma StronglySorted_split {A : Type} (R : A -> A -> Prop) l1 a l2 :
  StronglySorted R (l1 ++ a :: l2) ->
  Forall (fun x => R x a) l1 /\ Forall (R a) l2.
Proof.
  induction l1 as [|x l1 IH]; simpl; intros H.
  - inversion H; subst. split; [constructor|assumption].
  - inversion H as [|? ? Hs Hall]; subst.
    destruct (IH Hs) as [H1 H2]. split; auto.
    constructor; auto. rewrite Forall_forall in Hall. apply Hall.
    apply in_or_app. right. now left.
Qed.

Lemma filter_nil_of_forall {A : Type} (f : A -> bool) l :
  Forall (fun x => f x = false) l -> filter f l = [].
Proof. induction 1 as [|x l Hx _ IH]; simpl; auto. now rewrite Hx. Qed.

Lemma filter_ext_forall {A : Type} (f g : A -> bool) l :
  Forall (fun x => f x = g x) l -> filter f l = filter g l.
Proof.
  induction 1 as [|x l Hx _ IH]; simpl; auto. now rewrite Hx, IH.
Qed.

(** X14: when no other record of its position has exactly as many points,
    the season-end rank of a player is 1 plus the number of players of the
    position with strictly more points; the order of the stats mapping
    plays no part. *)
Theorem season_end_rank_counts_better_players
    (Points : Type) (points_lt : Points -> Points -> bool)
    (lt_asym : forall x y, points_lt x y = true -> points_lt y x = false)
    (lt_negtrans : forall x y z,
        points_lt x y = false -> points_lt y z = false -> points_lt x z = false)
    (player_data : dict (YahooPlayerData.t Points))
    (a : YahooPlayerData.t Points) :
  distinct_ids player_data ->
  positions_known player_data ->
  In a (values player_data) ->
  (forall b, In b (values player_data) ->
     YahooPlayerData.position b = YahooPlayerData.position a -> b <> a ->
     points_lt (YahooPlayerData.season_points a)
       (YahooPlayerData.season_points b) = true \/
     points_lt (YahooPlayerData.season_points b)
       (YahooPlayerData.season_points a) = true) ->
  exists ranks,
    _get_player_position_season_point_ranks points_lt player_data = Ok ranks /\
    dict_get (YahooPlayerData.id a) ranks
    = Some (1 + Z.of_nat
              (length (better_players points_lt a (values player_data)))).
Proof.
  intros Hids Hpos Ha Hnotie.
  destruct (season_point_ranks_lookup points_lt player_data Hpos Hids)
    as (ranks & Hranks & Hlook).
  exists ranks. split; [exact Hranks|].
  pose proof (season_order_perm points_lt player_data) as Hperm.
  pose proof (sorted_desc_sorted points_lt YahooPlayerData.season_points
                lt_asym lt_negtrans (values player_data)) as Hsorted.
  fold (season_order points_lt player_data) in Hsorted.
  assert (Hnd : NoDup (map YahooPlayerData.id
                         (season_order points_lt player_data))).
  { eapply Permutation_NoDup; [|exact Hids].
    apply Permutation_map. now symmetry. }
  replace (length (better_players points_lt a (values player_data)))
    with (length (better_players points_lt a
                    (season_order points_lt player_data)))
    by (apply Permutation_length, Permutation_filter; exact Hperm).
  unfold season_rank_values in Hlook.
  assert (Hin : In a (season_order points_lt player_data))
    by (eapply Permutation_in; [symmetry; exact Hperm|exact Ha]).
  assert (Hvals : forall b, In b (season_order points_lt player_data) ->
                            In b (values player_data))
    by (intros b; apply Permutation_in; exact Hperm).
  destruct (in_split _ _ Hin) as (l1 & l2 & Hsplit).
  rewrite Hsplit in *.
  destruct (StronglySorted_split _ _ _ _ Hsorted) as [Hl1 Hl2].
  assert (Hi : nth_error (l1 ++ a :: l2) (length l1) = Some a).
  { rewrite nth_error_app2 by lia. now rewrite Nat.sub_diag. }
  destruct (Forall2_nth_error _ _ _ _ _ Hlook Hi) as (r & Hr & Hget).
  rewrite Hget. f_equal.
  rewrite (running_ranks_nth _ _ _ (YahooPlayerData.position a)) in Hr
    by (rewrite nth_error_map, Hi; reflexivity).
  apply Some_eq_inv in Hr. subst r. do 2 f_equal.
  rewrite map_app, firstn_app, length_map, Nat.sub_diag, firstn_0, app_nil_r.
  rewrite <- (length_map YahooPlayerData.position l1) at 1.
  rewrite firstn_all, count_pos_positions.
  unfold better_players. rewrite filter_app. cbn [filter].
  rewrite String.eqb_refl. cbn [andb].
  assert (Hirr : points_lt (YahooPlayerData.season_points a)
                   (YahooPlayerData.season_points a) = false).
  { destruct (points_lt _ _) eqn:E; auto. pose proof (lt_asym _ _ E).
    congruence. }
  rewrite Hirr.
  rewrite (filter_nil_of_forall _ l2).
  - rewrite app_nil_r. unfold players_at. f_equal.
    apply filter_ext_forall. apply Forall_forall. intros x Hx.
    destruct (String.eqb (YahooPlayerData.position a)
                (YahooPlayerData.position x)) eqn:E; cbn [andb]; auto.
    apply String.eqb_eq in E. symmetry.
    assert (Hxa : x <> a).
    { intros ->. rewrite map_app in Hnd. cbn [map] in Hnd.
      apply NoDup_remove_2 in Hnd. apply Hnd.
      apply in_or_app. left. now apply in_map. }
    destruct (Hnotie x) as [H|H]; auto.
    + apply Hvals. apply in_or_app. now left.
    + rewrite Forall_forall in Hl1. specialize (Hl1 x Hx).
      unfold not_before_desc in Hl1. congruence.
  - eapply Forall_impl; [|exact Hl2]. intros y Hy.
    unfold not_before_desc in Hy. rewrite Hy. apply Bool.andb_false_r.
Qed.

Lemma season_end_rank_counts_better_players_witness :
  exists ranks,
    _get_player_position_season_point_ranks Z.ltb ex_stats = Ok ranks /\
    dict_get "1" ranks
    = Some (1 + Z.of_nat
              (length (better_players Z.ltb (YahooPlayerData.mk "1" "QB" 100)
                         (values ex_stats)))).
Proof.
  apply (season_end_rank_counts_better_players Z Z.ltb Zltb_asym Zltb_negtrans
           ex_stats (YahooPlayerData.mk "1" "QB" 100)).
  - unfold distinct_ids. simpl. solve_nodup.
  - solve_forall solve_in.
  - solve_in.
  - intros b Hb _ Hne. simpl in Hb. destruct Hb as [<-|[<-|[]]].
    + congruence.
    + left. reflexivity.
Defined.

(** ** Bounds on the ranks *)

Lemma in_zseq start n x :
  In x (zseq start n) <-> start <= x < start + Z.of_nat n.
Proof.
  revert start. induction n as [|n IH]; intros start.
  - simpl. lia.
  - cbn [zseq In]. rewrite IH. lia.
Qed.

Lemma Forall2_in_r {A B : Type} (R : A -> B -> Prop) l1 l2 y :
  Forall2 R l1 l2 -> In y l2 -> exists x, In x l1 /\ R x y.
Proof.
  induction 1 as [|a b l1 l2 Hab _ IH]; intros Hin; [contradiction|].
  destruct Hin as [->|Hin].
  - exists a. split; auto. now left.
  - destruct (IH Hin) as (x & Hx & HR). exists x. split; auto. now right.
Qed.

(** X15: in every analysis of a covering stats mapping with one record per
    player id, draft_position_rank lies between 1 and the number m of
    drafted players of the position, season_end_position_rank between 1 and
    the number k of players of the position in the mapping, and so the
    differential between 1 - k and m - 1. *)
Theorem ranks_and_differential_are_bounded
    (Points : Type) (points_lt : Points -> Points -> bool)
    (draft_picks : list DraftPick.t)
    (player_data : dict (YahooPlayerData.t Points))
    (out : list (PlayerAnalysis.t Points)) :
  distinct_ids player_data ->
  covers player_data draft_picks ->
  get_player_analysis points_lt draft_picks player_data = Ok out ->
  Forall
    (fun pa =>
       (1 <= PlayerAnalysis.draft_position_rank pa
        <= Z.of_nat (length (drafted_at (PlayerAnalysis.position pa)
                               player_data draft_picks))) /\
       (1 <= PlayerAnalysis.season_end_position_rank pa
        <= Z.of_nat (length (players_at (PlayerAnalysis.position pa)
                               (values player_data)))) /\
       (1 - Z.of_nat (length (players_at (PlayerAnalysis.position pa)
                                (values player_data)))
        <= PlayerAnalysis.differential pa
        <= Z.of_nat (length (drafted_at (PlayerAnalysis.position pa)
                               player_data draft_picks)) - 1))
    out.
Proof.
  intros Hids Hcov Hrun. unfold get_player_analysis in Hrun.
  destruct (_get_player_position_season_point_ranks points_lt player_data)
    as [ranks|e] eqn:Hranks; cbn [bind] in Hrun; [|discriminate].
  pose proof (season_point_ranks_ok_inv _ _ _ Hranks) as Hpos.
  pose proof (player_analysis_loop_ok_inv _ _ _ _ _ _ Hrun) as Hfound.
  destruct (player_analysis_loop_ok player_data ranks draft_picks
              (mk_defaultdict (fun _ => 1) []) [] Hfound)
    as (out' & Heq & Hall & Hdr).
  rewrite Hrun in Heq. injection Heq as ->. cbn [app] in *.
  assert (Hder : Forall2 (derived_from player_data) draft_picks out').
  { eapply Forall2_impl; [|exact Hall]. now intros pick pa [Hd _]. }
  destruct (season_point_ranks_lookup points_lt player_data Hpos Hids)
    as (ranks' & Hranks' & Hlook).
  rewrite Hranks in Hranks'. injection Hranks' as <-.
  pose proof (season_order_perm points_lt player_data) as Hperm.
  apply Forall_forall. intros pa Hpa.
  set (pos := PlayerAnalysis.position pa).
  (* the draft rank *)
  assert (Hd : 1 <= PlayerAnalysis.draft_position_rank pa
               <= Z.of_nat (length (drafted_at pos player_data draft_picks))).
  { destruct (draft_ranks_at player_data pos draft_picks out' _ Hder Hdr)
      as [Hz _].
    assert (Hin : In (PlayerAnalysis.draft_position_rank pa)
                    (map PlayerAnalysis.draft_position_rank
                       (analyzed_at pos out'))).
    { apply in_map. unfold analyzed_at. apply filter_In. split; auto.
      apply String.eqb_refl. }
    rewrite Hz in Hin. apply in_zseq in Hin.
    change (dd_val _ pos) with 1 in Hin. lia. }
  (* the season-end rank *)
  assert (Hs : 1 <= PlayerAnalysis.season_end_position_rank pa
               <= Z.of_nat (length (players_at pos (values player_data)))).
  { destruct (Forall2_in_r _ _ _ _ Hall Hpa) as (pick & Hpick & Hd' & Hget).
    destruct Hd' as (pd & Hpd & _ & _ & _ & _ & _ & Hp & _).
    unfold covers in Hcov. rewrite Forall_forall in Hcov.
    destruct (Hcov _ Hpick) as (pd' & Hpd' & Hid).
    rewrite Hpd in Hpd'. injection Hpd' as <-.
    assert (Hin : In pd (season_order points_lt player_data)).
    { eapply Permutation_in; [symmetry; exact Hperm|].
      apply dict_get_some_in in Hpd. unfold values.
      change pd with (snd (DraftPick.id pick, pd)). now apply in_map. }
    destruct (In_nth_error _ _ Hin) as [i Hi].
    destruct (Forall2_nth_error _ _ _ _ _ Hlook Hi) as (r & Hr & Hgr).
    rewrite Hid, Hget in Hgr. apply Some_eq_inv in Hgr. rewrite Hgr.
    unfold season_rank_values in Hr.
    rewrite (running_ranks_nth _ _ i (YahooPlayerData.position pd)) in Hr
      by (rewrite nth_error_map, Hi; reflexivity).
    apply Some_eq_inv in Hr. subst r.
    set (ps := map YahooPlayerData.position
                 (season_order points_lt player_data)) in *.
    assert (Hlen : (i < length ps)%nat).
    { unfold ps. rewrite length_map. apply nth_error_Some. congruence. }
    pose proof (count_pos_firstn_lt (YahooPlayerData.position pd) ps i
                  (length ps) Hlen
                  ltac:(unfold ps; rewrite nth_error_map, Hi; reflexivity)
                  ltac:(lia)) as Hcount.
    rewrite firstn_all in Hcount. unfold ps in Hcount at 2.
    rewrite count_pos_positions in Hcount.
    replace (length (players_at pos (values player_data)))
      with (length (players_at (YahooPlayerData.position pd)
                      (season_order points_lt player_data))).
    - lia.
    - unfold pos. rewrite Hp.
      apply Permutation_length, Permutation_filter. exact Hperm. }
  split; [exact Hd|]. split; [exact Hs|].
  destruct (Forall2_in_r _ _ _ _ Hder Hpa) as (pick & _ & Hd').
  destruct Hd' as (pd & _ & _ & _ & _ & _ & _ & _ & _ & Hdiff).
  fold pos. lia.
Qed.

Lemma ranks_and_differential_are_bounded_witness :
  Forall
    (fun pa =>
       (1 <= PlayerAnalysis.draft_position_rank pa
        <= Z.of_nat (length (drafted_at (PlayerAnalysis.position pa)
                               ex_stats ex_draft))) /\
       (1 <= PlayerAnalysis.season_end_position_rank pa
        <= Z.of_nat (length (players_at (PlayerAnalysis.position pa)
                               (values ex_stats)))) /\
       (1 - Z.of_nat (length (players_at (PlayerAnalysis.position pa)
                                (values ex_stats)))
        <= PlayerAnalysis.differential pa
        <= Z.of_nat (length (drafted_at (PlayerAnalysis.position pa)
                               ex_stats ex_draft)) - 1))
    ex_analysis.
Proof.
  apply (ranks_and_differential_are_bounded Z Z.ltb ex_draft ex_stats
           ex_analysis).
  - unfold distinct_ids. simpl. solve_nodup.
  - solve_covers.
  - reflexivity.
Defined.
